(** * Goddard matrix/vector math ([src/goddard/gd_math.c])

    A shallow embedding of the 4x4 matrix and 3-vector routines of
    [gd_math.c], and the properties of those routines.

    - The arithmetic is written once, over an interface [Scalar] of the
      operations the C code applies to [f32] values.  Two instances are
      given: [f32_scalar], IEEE-754 binary32 with round-to-nearest-even
      (the arithmetic the code runs on), and [R_scalar], exact real
      arithmetic (the arithmetic the formulas are meant in).
    - [Mat4f] buffers live in a store addressed by pointers, because the
      routines take pointers to [Mat4f] that may alias; vectors and
      scalars are passed by value.
    - [fatal_printf]/[fatal_print] do not return: they end the run with
      the result [Fatal]. *)

From Stdlib Require Import ZArith Bool List String Lia.
From Stdlib Require Import Floats.SpecFloat.
From Stdlib Require Import Reals Lra RNsatz.
From Stdlib Require Import FunctionalExtensionality.

Set Implicit Arguments.

(* ================================================================== *)
(** * Scalars *)
(* ================================================================== *)

(** The operations [gd_math.c] uses on [f32] values.  [fconst z] is the
    literal with the integer value [z] ([0.0f], [1.0f], [2.0f], [10.0f],
    [10000.0f]); [flt_1em5 v] is the comparison [v < 1e-5], whose right
    operand is a [double] literal, so that [v] is promoted before it is
    compared.  [sqrtf] and [absf] come from headers outside this file. *)
Class Scalar : Type := {
  F : Type;
  fadd : F -> F -> F;
  fsub : F -> F -> F;
  fmul : F -> F -> F;
  fdiv : F -> F -> F;
  fneg : F -> F;
  sqrtf : F -> F;
  absf : F -> F;
  feqb : F -> F -> bool;
  fltb : F -> F -> bool;
  fconst : Z -> F;
  flt_1em5 : F -> bool
}.

Declare Scope fl_scope.
Delimit Scope fl_scope with fl.
Notation "a + b" := (fadd a b) : fl_scope.
Notation "a - b" := (fsub a b) : fl_scope.
Notation "a * b" := (fmul a b) : fl_scope.
Notation "a / b" := (fdiv a b) : fl_scope.
Notation "- a" := (fneg a) : fl_scope.
Notation "a == b" := (feqb a b) (at level 70, no associativity) : fl_scope.
Notation "a != b" := (negb (feqb a b)) (at level 70, no associativity) : fl_scope.
Notation "a < b" := (fltb a b) : fl_scope.
Notation "a > b" := (fltb b a) : fl_scope.

(** ** IEEE-754 binary32 *)

Module F32.

Definition prec : Z := 24.
Definition emax : Z := 128.

Definition t : Type := spec_float.

Definition of_Z (v : Z) : t := binary_normalize prec emax v 0 false.

(** [of_pow2 m e] is the binary32 value nearest to [m * 2^e]. *)
Definition of_pow2 (m e : Z) : t := binary_normalize prec emax m e false.

(** Promotion of a binary32 value to binary64 (exact). *)
Definition to_double (v : t) : spec_float :=
  match v with
  | S754_finite s m e => binary_round 53 1024 s m e
  | _ => v
  end.

(** The [double] literal [1e-5]: the binary64 value nearest to 1/100000. *)
Definition double_1em5 : spec_float :=
  Eval vm_compute in
    SFdiv 53 1024 (binary_normalize 53 1024 1 0 false)
                  (binary_normalize 53 1024 100000 0 false).

Definition lt_1em5 (v : t) : bool := SFltb (to_double v) double_1em5.

(** Zero or a finite number: neither an infinity nor NaN. *)
Definition is_finite (v : t) : bool :=
  match v with
  | S754_zero _ | S754_finite _ _ _ => true
  | S754_infinity _ | S754_nan => false
  end.

End F32.

#[export] Instance f32_scalar : Scalar := {|
  F := F32.t;
  fadd := SFadd F32.prec F32.emax;
  fsub := SFsub F32.prec F32.emax;
  fmul := SFmul F32.prec F32.emax;
  fdiv := SFdiv F32.prec F32.emax;
  fneg := SFopp;
  sqrtf := SFsqrt F32.prec F32.emax;
  absf := SFabs;
  feqb := SFeqb;
  fltb := SFltb;
  fconst := F32.of_Z;
  flt_1em5 := F32.lt_1em5
|}.

(** ** Exact real arithmetic *)

Definition Reqb (a b : R) : bool := if Req_dec_T a b then true else false.
Definition Rltb (a b : R) : bool := if Rlt_dec a b then true else false.

Definition R_scalar : Scalar := {|
  F := R;
  fadd := Rplus;
  fsub := Rminus;
  fmul := Rmult;
  fdiv := Rdiv;
  fneg := Ropp;
  sqrtf := sqrt;
  absf := Rabs;
  feqb := Reqb;
  fltb := Rltb;
  fconst := IZR;
  flt_1em5 := fun v => Rltb v (1 / 100000)
|}.

(* ================================================================== *)
(** * Data *)
(* ================================================================== *)

Section Data.
Variable T : Type.

(** [struct GdVec3f] *)
Record GdVec3f : Type := mkVec3 { x : T; y : T; z : T }.

(** One row [f32[4]] of a [Mat4f], and [Mat4f] = [f32[4][4]]. *)
Record Row4 : Type := mkRow4 { e0 : T; e1 : T; e2 : T; e3 : T }.
Record Mat4f : Type := mkMat4 { row0 : Row4; row1 : Row4; row2 : Row4; row3 : Row4 }.

(** Indexing.  Every index in [gd_math.c] is in 0..3; an index above 3
    is never formed (here it selects the last element). *)
Definition rget (r : Row4) (j : nat) : T :=
  match j with 0 => e0 r | 1 => e1 r | 2 => e2 r | _ => e3 r end.
Definition rset (r : Row4) (j : nat) (v : T) : Row4 :=
  match j with
  | 0 => mkRow4 v (e1 r) (e2 r) (e3 r)
  | 1 => mkRow4 (e0 r) v (e2 r) (e3 r)
  | 2 => mkRow4 (e0 r) (e1 r) v (e3 r)
  | _ => mkRow4 (e0 r) (e1 r) (e2 r) v
  end.
Definition mrow (m : Mat4f) (i : nat) : Row4 :=
  match i with 0 => row0 m | 1 => row1 m | 2 => row2 m | _ => row3 m end.
Definition mget (m : Mat4f) (i j : nat) : T := rget (mrow m i) j.
Definition mset (m : Mat4f) (i j : nat) (v : T) : Mat4f :=
  match i with
  | 0 => mkMat4 (rset (row0 m) j v) (row1 m) (row2 m) (row3 m)
  | 1 => mkMat4 (row0 m) (rset (row1 m) j v) (row2 m) (row3 m)
  | 2 => mkMat4 (row0 m) (row1 m) (rset (row2 m) j v) (row3 m)
  | _ => mkMat4 (row0 m) (row1 m) (row2 m) (rset (row3 m) j v)
  end.

(** [struct InvMat4]: four rows [r0..r3] of four fields [c0..c3]. *)
Record InvRow : Type := mkInvRow { c0 : T; c1 : T; c2 : T; c3 : T }.
Record InvMat4 : Type := mkInvMat4 { r0 : InvRow; r1 : InvRow; r2 : InvRow; r3 : InvRow }.

End Data.

(** Modelled from the spec: the macro [sqr] is defined in a header
    outside this file; the spec writes the squared magnitude
    [x^2 + y^2 + z^2], so [sqr a] is the product of [a] with itself. *)
Definition sqr {SC : Scalar} (a : F) : F := (a * a)%fl.

(* ================================================================== *)
(** * The store of matrix buffers and the monad of the routines *)
(* ================================================================== *)

Definition ptr : Type := nat.

(** [mem p] is the content of the [Mat4f] buffer at [p]; the buffers
    below [sp] are the caller's, the buffers from [sp] up are free stack
    space, where a routine puts its local [Mat4f] variables. *)
Record State (T : Type) : Type := mkState { sp : nat; mem : ptr -> Mat4f T }.

(** A run either returns, with a value and the new store, or ends in the
    fatal error reporter, which does not return. *)
Inductive Res (T A : Type) : Type :=
| Ok (a : A) (s : State T)
| Fatal (msg : string).
Arguments Fatal {T A} msg.

Section Store.
Context {SC : Scalar}.

Definition set_mat (s : State F) (p : ptr) (m : Mat4f F) : State F :=
  mkState (sp s) (fun q => if Nat.eqb q p then m else mem s q).

Definition load (s : State F) (p : ptr) (i j : nat) : F := mget (mem s p) i j.
Definition store (s : State F) (p : ptr) (i j : nat) (v : F) : State F :=
  set_mat s p (mset (mem s p) i j v).

Definition M (A : Type) : Type := State F -> Res F A.

Definition ret {A} (a : A) : M A := fun s => Ok a s.
Definition bind {A B} (m : M A) (k : A -> M B) : M B :=
  fun s => match m s with
           | Ok a s' => k a s'
           | Fatal msg => Fatal msg
           end.

(** The entry [i][j] of the buffer behind [p], read and assigned. *)
Definition ld (p : ptr) (i j : nat) : M F := fun s => Ok (load s p i j) s.
Definition st (p : ptr) (i j : nat) (v : F) : M unit := fun s => Ok tt (store s p i j v).

(** Modelled from the spec: [fatal_printf] and [fatal_print] are defined
    outside this file; the fatal-error reporter "must not return". *)
Definition fatal_printf (msg : string) : M unit := fun _ => Fatal msg.
Definition fatal_print (msg : string) : M unit := fatal_printf msg.

(** A local [Mat4f] of a routine: the first free buffer, released when
    the routine returns.  Its initial content is whatever the store
    holds there. *)
Definition with_local {A} (body : ptr -> M A) : M A :=
  fun s => match body (sp s) (mkState (S (sp s)) (mem s)) with
           | Ok a s' => Ok a (mkState (sp s) (mem s'))
           | Fatal msg => Fatal msg
           end.

(** [for (i = lo; i < hi; i++) body] *)
Fixpoint for_from (n : nat) (i : nat) (body : nat -> M unit) : M unit :=
  match n with
  | O => ret tt
  | S n' => bind (body i) (fun _ => for_from n' (S i) body)
  end.
Definition for_ (lo hi : nat) (body : nat -> M unit) : M unit :=
  for_from (hi - lo) lo body.

(** The same loop, for a body that also updates a local array [a]. *)
Fixpoint for_acc_from {A} (n : nat) (i : nat) (a : A) (body : nat -> A -> M A) : M A :=
  match n with
  | O => ret a
  | S n' => bind (body i a) (fun a' => for_acc_from n' (S i) a' body)
  end.
Definition for_acc {A} (lo hi : nat) (a : A) (body : nat -> A -> M A) : M A :=
  for_acc_from (hi - lo) lo a body.

End Store.


Declare Scope gd_scope.
Delimit Scope gd_scope with gd.
Notation "x <- m ;; k" := (bind m (fun x => k))
  (at level 61, m at next level, right associativity) : gd_scope.
Notation "m ;; k" := (bind m (fun _ => k))
  (at level 61, right associativity) : gd_scope.

(* ================================================================== *)
(** * What the routines take from outside [gd_math.c] *)
(* ================================================================== *)

(** The angle adapter ([degrees_to_angle], [sins], [coss]) and the axis
    selectors of [enum GdRotAxis] are declared in headers that are not
    part of this file; the routines are parameterised by them.  The value
    [degrees_to_angle] returns is taken as it is stored in the [f32]
    local that receives it. *)
Class Externals (SC : Scalar) : Type := {
  degrees_to_angle : F -> F;
  sins : F -> F;
  coss : F -> F;
  GD_X_AXIS : Z;
  GD_Y_AXIS : Z;
  GD_Z_AXIS : Z
}.

(* ================================================================== *)
(** * The routines *)
(* ================================================================== *)

Section Routines.
Context {SC : Scalar} {EX : Externals SC}.

Local Open Scope fl_scope.
Local Open Scope gd_scope.

Notation "0" := (fconst 0) : fl_scope.
Notation "1" := (fconst 1) : fl_scope.
Notation "2" := (fconst 2) : fl_scope.
Notation "10" := (fconst 10) : fl_scope.
Notation "10000" := (fconst 10000) : fl_scope.

(** The content of an uninitialised local.  Where the source leaves a
    local unassigned, every later use of it is behind a call of the
    fatal error reporter. *)
Definition indeterminate : F := 0.

(** ** Vectors *)

Definition gd_vec3f_magnitude (vec : GdVec3f F) : F :=
  sqrtf (sqr (x vec) + sqr (y vec) + sqr (z vec)).

(** [s32 gd_normalize_vec3f(struct GdVec3f *vec)]: the returned flag and
    the vector left behind [vec]. *)
Definition gd_normalize_vec3f (vec : GdVec3f F) : bool * GdVec3f F :=
  let mag := sqr (x vec) + sqr (y vec) + sqr (z vec) in
  if mag == 0 then
    (false, mkVec3 0 0 0)
  else
    let mag := 1 / sqrtf mag in
    (true, mkVec3 (x vec * mag) (y vec * mag) (z vec * mag)).

(** ** Identity, copy, product *)

Definition gd_set_identity_mat4 (mtx : ptr) : M unit :=
  st mtx 0 0 1 ;; st mtx 0 1 0 ;; st mtx 0 2 0 ;; st mtx 0 3 0 ;;
  st mtx 1 0 0 ;; st mtx 1 1 1 ;; st mtx 1 2 0 ;; st mtx 1 3 0 ;;
  st mtx 2 0 0 ;; st mtx 2 1 0 ;; st mtx 2 2 1 ;; st mtx 2 3 0 ;;
  st mtx 3 0 0 ;; st mtx 3 1 0 ;; st mtx 3 2 0 ;; st mtx 3 3 1.

Definition copy_entry (src dst : ptr) (i j : nat) : M unit :=
  v <- ld src i j ;; st dst i j v.

Definition gd_copy_mat4f (src dst : ptr) : M unit :=
  copy_entry src dst 0 0 ;; copy_entry src dst 0 1 ;;
  copy_entry src dst 0 2 ;; copy_entry src dst 0 3 ;;
  copy_entry src dst 1 0 ;; copy_entry src dst 1 1 ;;
  copy_entry src dst 1 2 ;; copy_entry src dst 1 3 ;;
  copy_entry src dst 2 0 ;; copy_entry src dst 2 1 ;;
  copy_entry src dst 2 2 ;; copy_entry src dst 2 3 ;;
  copy_entry src dst 3 0 ;; copy_entry src dst 3 1 ;;
  copy_entry src dst 3 2 ;; copy_entry src dst 3 3.

(** The macro [GD_MAT4_DOT_PROD(A, B, R, row, col)]. *)
Definition GD_MAT4_DOT_PROD (A B R : ptr) (row col : nat) : M unit :=
  a <- ld A row 0 ;; b <- ld B 0 col ;; st R row col (a * b) ;;
  r <- ld R row col ;; a <- ld A row 1 ;; b <- ld B 1 col ;; st R row col (r + a * b) ;;
  r <- ld R row col ;; a <- ld A row 2 ;; b <- ld B 2 col ;; st R row col (r + a * b) ;;
  r <- ld R row col ;; a <- ld A row 3 ;; b <- ld B 3 col ;; st R row col (r + a * b).

(** The macro [GD_MAT4_MULTIPLY(A, B, R)]. *)
Definition GD_MAT4_MULTIPLY (A B R : ptr) : M unit :=
  GD_MAT4_DOT_PROD A B R 0 0 ;; GD_MAT4_DOT_PROD A B R 0 1 ;;
  GD_MAT4_DOT_PROD A B R 0 2 ;; GD_MAT4_DOT_PROD A B R 0 3 ;;
  GD_MAT4_DOT_PROD A B R 1 0 ;; GD_MAT4_DOT_PROD A B R 1 1 ;;
  GD_MAT4_DOT_PROD A B R 1 2 ;; GD_MAT4_DOT_PROD A B R 1 3 ;;
  GD_MAT4_DOT_PROD A B R 2 0 ;; GD_MAT4_DOT_PROD A B R 2 1 ;;
  GD_MAT4_DOT_PROD A B R 2 2 ;; GD_MAT4_DOT_PROD A B R 2 3 ;;
  GD_MAT4_DOT_PROD A B R 3 0 ;; GD_MAT4_DOT_PROD A B R 3 1 ;;
  GD_MAT4_DOT_PROD A B R 3 2 ;; GD_MAT4_DOT_PROD A B R 3 3.

Definition gd_mult_mat4f (mA mB dst : ptr) : M unit :=
  with_local (fun res =>
    GD_MAT4_MULTIPLY mA mB res ;;
    gd_copy_mat4f res dst).

(** ** Determinants, adjugate, inverse *)

Definition gd_2x2_det (a b c d : F) : F := (a * d) - (b * c).

Definition gd_3x3_det (r0c0 r0c1 r0c2 r1c0 r1c1 r1c2 r2c0 r2c1 r2c2 : F) : F :=
  (r0c0 * gd_2x2_det r1c1 r1c2 r2c1 r2c2)
  - (r1c0 * gd_2x2_det r0c1 r0c2 r2c1 r2c2)
  + (r2c0 * gd_2x2_det r0c1 r0c2 r1c1 r1c2).

(** The sixteen assignments [inv.rK.cL = m[3-L][3-K]] that open both
    [gd_adjunct_mat4f] and [gd_mat4f_det], in the order of the source. *)
Definition read_InvMat4 (m : ptr) : M (InvMat4 F) :=
  r3c3 <- ld m 0 0 ;; r2c3 <- ld m 0 1 ;; r1c3 <- ld m 0 2 ;; r0c3 <- ld m 0 3 ;;
  r3c2 <- ld m 1 0 ;; r2c2 <- ld m 1 1 ;; r1c2 <- ld m 1 2 ;; r0c2 <- ld m 1 3 ;;
  r3c1 <- ld m 2 0 ;; r2c1 <- ld m 2 1 ;; r1c1 <- ld m 2 2 ;; r0c1 <- ld m 2 3 ;;
  r3c0 <- ld m 3 0 ;; r2c0 <- ld m 3 1 ;; r1c0 <- ld m 3 2 ;; r0c0 <- ld m 3 3 ;;
  ret (mkInvMat4 (mkInvRow r0c0 r0c1 r0c2 r0c3) (mkInvRow r1c0 r1c1 r1c2 r1c3)
                 (mkInvRow r2c0 r2c1 r2c2 r2c3) (mkInvRow r3c0 r3c1 r3c2 r3c3)).

Definition gd_adjunct_mat4f (src dst : ptr) : M unit :=
  inv <- read_InvMat4 src ;;
  st dst 0 0 (gd_3x3_det inv.(r2).(c2) inv.(r2).(c1) inv.(r2).(c0)
                            inv.(r1).(c2) inv.(r1).(c1) inv.(r1).(c0)
                            inv.(r0).(c2) inv.(r0).(c1) inv.(r0).(c0)) ;;
  st dst 1 0 (- gd_3x3_det inv.(r3).(c2) inv.(r3).(c1) inv.(r3).(c0)
                            inv.(r1).(c2) inv.(r1).(c1) inv.(r1).(c0)
                            inv.(r0).(c2) inv.(r0).(c1) inv.(r0).(c0)) ;;
  st dst 2 0 (gd_3x3_det inv.(r3).(c2) inv.(r3).(c1) inv.(r3).(c0)
                            inv.(r2).(c2) inv.(r2).(c1) inv.(r2).(c0)
                            inv.(r0).(c2) inv.(r0).(c1) inv.(r0).(c0)) ;;
  st dst 3 0 (- gd_3x3_det inv.(r3).(c2) inv.(r3).(c1) inv.(r3).(c0)
                            inv.(r2).(c2) inv.(r2).(c1) inv.(r2).(c0)
                            inv.(r1).(c2) inv.(r1).(c1) inv.(r1).(c0)) ;;
  st dst 0 1 (- gd_3x3_det inv.(r2).(c3) inv.(r2).(c1) inv.(r2).(c0)
                            inv.(r1).(c3) inv.(r1).(c1) inv.(r1).(c0)
                            inv.(r0).(c3) inv.(r0).(c1) inv.(r0).(c0)) ;;
  st dst 1 1 (gd_3x3_det inv.(r3).(c3) inv.(r3).(c1) inv.(r3).(c0)
                            inv.(r1).(c3) inv.(r1).(c1) inv.(r1).(c0)
                            inv.(r0).(c3) inv.(r0).(c1) inv.(r0).(c0)) ;;
  st dst 2 1 (- gd_3x3_det inv.(r3).(c3) inv.(r3).(c1) inv.(r3).(c0)
                            inv.(r2).(c3) inv.(r2).(c1) inv.(r2).(c0)
                            inv.(r0).(c3) inv.(r0).(c1) inv.(r0).(c0)) ;;
  st dst 3 1 (gd_3x3_det inv.(r3).(c3) inv.(r3).(c1) inv.(r3).(c0)
                            inv.(r2).(c3) inv.(r2).(c1) inv.(r2).(c0)
                            inv.(r1).(c3) inv.(r1).(c1) inv.(r1).(c0)) ;;
  st dst 0 2 (gd_3x3_det inv.(r2).(c3) inv.(r2).(c2) inv.(r2).(c0)
                            inv.(r1).(c3) inv.(r1).(c2) inv.(r1).(c0)
                            inv.(r0).(c3) inv.(r0).(c2) inv.(r0).(c0)) ;;
  st dst 1 2 (- gd_3x3_det inv.(r3).(c3) inv.(r3).(c2) inv.(r3).(c0)
                            inv.(r1).(c3) inv.(r1).(c2) inv.(r1).(c0)
                            inv.(r0).(c3) inv.(r0).(c2) inv.(r0).(c0)) ;;
  st dst 2 2 (gd_3x3_det inv.(r3).(c3) inv.(r3).(c2) inv.(r3).(c0)
                            inv.(r2).(c3) inv.(r2).(c2) inv.(r2).(c0)
                            inv.(r0).(c3) inv.(r0).(c2) inv.(r0).(c0)) ;;
  st dst 3 2 (- gd_3x3_det inv.(r3).(c3) inv.(r3).(c2) inv.(r3).(c0)
                            inv.(r2).(c3) inv.(r2).(c2) inv.(r2).(c0)
                            inv.(r1).(c3) inv.(r1).(c2) inv.(r1).(c0)) ;;
  st dst 0 3 (- gd_3x3_det inv.(r2).(c3) inv.(r2).(c2) inv.(r2).(c1)
                            inv.(r1).(c3) inv.(r1).(c2) inv.(r1).(c1)
                            inv.(r0).(c3) inv.(r0).(c2) inv.(r0).(c1)) ;;
  st dst 1 3 (gd_3x3_det inv.(r3).(c3) inv.(r3).(c2) inv.(r3).(c1)
                            inv.(r1).(c3) inv.(r1).(c2) inv.(r1).(c1)
                            inv.(r0).(c3) inv.(r0).(c2) inv.(r0).(c1)) ;;
  st dst 2 3 (- gd_3x3_det inv.(r3).(c3) inv.(r3).(c2) inv.(r3).(c1)
                            inv.(r2).(c3) inv.(r2).(c2) inv.(r2).(c1)
                            inv.(r0).(c3) inv.(r0).(c2) inv.(r0).(c1)) ;;
  st dst 3 3 (gd_3x3_det inv.(r3).(c3) inv.(r3).(c2) inv.(r3).(c1)
                            inv.(r2).(c3) inv.(r2).(c2) inv.(r2).(c1)
                            inv.(r1).(c3) inv.(r1).(c2) inv.(r1).(c1)).

Definition gd_mat4f_det (mtx : ptr) : M F :=
  inv <- read_InvMat4 mtx ;;
  let det :=
    (inv.(r3).(c3)
       * gd_3x3_det inv.(r2).(c2) inv.(r2).(c1) inv.(r2).(c0)
                    inv.(r1).(c2) inv.(r1).(c1) inv.(r1).(c0)
                    inv.(r0).(c2) inv.(r0).(c1) inv.(r0).(c0)
     - inv.(r2).(c3)
       * gd_3x3_det inv.(r3).(c2) inv.(r3).(c1) inv.(r3).(c0)
                    inv.(r1).(c2) inv.(r1).(c1) inv.(r1).(c0)
                    inv.(r0).(c2) inv.(r0).(c1) inv.(r0).(c0))
    + inv.(r1).(c3)
       * gd_3x3_det inv.(r3).(c2) inv.(r3).(c1) inv.(r3).(c0)
                    inv.(r2).(c2) inv.(r2).(c1) inv.(r2).(c0)
                    inv.(r0).(c2) inv.(r0).(c1) inv.(r0).(c0)
    - inv.(r0).(c3)
       * gd_3x3_det inv.(r3).(c2) inv.(r3).(c1) inv.(r3).(c0)
                    inv.(r2).(c2) inv.(r2).(c1) inv.(r2).(c0)
                    inv.(r1).(c2) inv.(r1).(c1) inv.(r1).(c0) in
  ret det.

Definition gd_inverse_mat4f (src dst : ptr) : M unit :=
  gd_adjunct_mat4f src dst ;;
  determinant <- gd_mat4f_det dst ;;
  (if flt_1em5 (absf determinant)
   then fatal_print "Non-singular matrix, no inverse!\n"
   else ret tt) ;;
  for_ 0 4 (fun i =>
    for_ 0 4 (fun j =>
      v <- ld dst i j ;; st dst i j (v / determinant))).

(** ** Rotation builders *)

Definition gd_create_rot_matrix (mtx : ptr) (vec : GdVec3f F) (s c : F) : M unit :=
  let rev := mkVec3 (z vec) (y vec) (x vec) in
  let oneMinusCos := 1 - c in
  let omcYX := oneMinusCos * y rev * x rev in
  let omcZX := oneMinusCos * z rev * x rev in
  let omcZY := oneMinusCos * z rev * y rev in
  st mtx 0 0 ((oneMinusCos * sqr (z rev)) + c) ;;
  st mtx 1 1 ((oneMinusCos * sqr (y rev)) + c) ;;
  st mtx 2 2 ((oneMinusCos * sqr (x rev)) + c) ;;
  let rev := mkVec3 (x rev * s) (y rev * s) (z rev * s) in
  st mtx 0 1 (omcZY + x rev) ;;
  st mtx 0 2 (omcZX - y rev) ;;
  st mtx 1 0 (omcZY - x rev) ;;
  st mtx 1 2 (omcYX + z rev) ;;
  st mtx 2 0 (omcZX + y rev) ;;
  st mtx 2 1 (omcYX - z rev) ;;
  st mtx 0 3 0 ;;
  st mtx 1 3 0 ;;
  st mtx 2 3 0 ;;
  st mtx 3 0 0 ;;
  st mtx 3 1 0 ;;
  st mtx 3 2 0 ;;
  st mtx 3 3 1.

Definition gd_create_rot_mat_angular (mtx : ptr) (vec : GdVec3f F) (deg : F) : M unit :=
  let ang := degrees_to_angle (deg * 2) in
  gd_create_rot_matrix mtx vec (sins ang) (coss ang).

(** The [switch] of [gd_absrot_mat4]: the axis vector [rot], or the
    fatal error reporter on the [default] label. *)
Definition absrot_axis (axisnum : Z) : M (GdVec3f F) :=
  if Z.eqb axisnum GD_X_AXIS then ret (mkVec3 1 0 0)
  else if Z.eqb axisnum GD_Y_AXIS then ret (mkVec3 0 1 0)
  else if Z.eqb axisnum GD_Z_AXIS then ret (mkVec3 0 0 1)
  else
    fatal_printf "absrot_matrix4(): Bad axis num" ;;
    ret (mkVec3 indeterminate indeterminate indeterminate).

Definition gd_absrot_mat4 (mtx : ptr) (axisnum : Z) (ang : F) : M unit :=
  with_local (fun rMat =>
    rot <- absrot_axis axisnum ;;
    gd_create_rot_mat_angular rMat rot (ang / 2) ;;
    gd_mult_mat4f mtx rMat mtx).

(** ** Quaternion to matrix

    The local arrays [temp[3]] and [sqQuat[4]] are kept in a [Row4]. *)

Definition gd_shift_mat_up (mtx : ptr) : M unit :=
  temp <- for_acc 0 3 (mkRow4 indeterminate indeterminate indeterminate indeterminate)
            (fun i temp => v <- ld mtx 0 (i + 1) ;; ret (rset temp i v)) ;;
  for_ 1 4 (fun i =>
    for_ 1 4 (fun j =>
      v <- ld mtx i j ;; st mtx (i - 1) (j - 1) v)) ;;
  st mtx 0 3 0 ;;
  st mtx 1 3 0 ;;
  st mtx 2 3 0 ;;
  st mtx 3 3 1 ;;
  for_ 0 3 (fun i => st mtx 3 i (rget temp i)).

(** [quat] is the array [f32 quat[4]], read only. *)
Definition gd_create_quat_rot_mat (quat : Row4 F) (unused : Z) (mtx : ptr) : M unit :=
  sqQuat <- for_acc 0 4 (mkRow4 indeterminate indeterminate indeterminate indeterminate)
              (fun i sqQuat => ret (rset sqQuat i (sqr (rget quat i)))) ;;
  for_ 1 4 (fun i =>
    let j := (i + 1)%nat in
    let j := if (4 <=? j)%nat then 1%nat else j in
    let k := (j + 1)%nat in
    let k := if (4 <=? k)%nat then 1%nat else k in
    let twoIJ := 2 * rget quat i * rget quat j in
    let two0K := 2 * rget quat k * rget quat 0 in
    st mtx j i (twoIJ - two0K) ;;
    st mtx i j (twoIJ + two0K) ;;
    st mtx i i (rget sqQuat i + rget sqQuat 0 - rget sqQuat j - rget sqQuat k) ;;
    st mtx i 0 0) ;;
  st mtx 0 0 1 ;;
  gd_shift_mat_up mtx.

(** ** Look-at builders *)

(** Lines 24-37 of [gd_mat4f_lookat]: the direction [d] as it stands
    after the rescaling step. *)
Definition lookat_direction (xFrom yFrom zFrom xTo yTo zTo : F) : GdVec3f F :=
  let d := mkVec3 (zTo - zFrom) (yTo - yFrom) (xTo - xFrom) in
  let invLength := absf (z d) + absf (y d) + absf (x d) in
  if (invLength > 10000) || (invLength < 10) then
    let d := snd (gd_normalize_vec3f d) in
    mkVec3 (x d * 10000) (y d * 10000) (z d * 10000)
  else d.

Definition gd_mat4f_lookat (mtx : ptr)
    (xFrom yFrom zFrom xTo yTo zTo zColY yColY xColY : F) : M unit :=
  let d := lookat_direction xFrom yFrom zFrom xTo yTo zTo in
  let invLength := - (1 / sqrtf (sqr (z d) + sqr (y d) + sqr (x d))) in
  let d := mkVec3 (x d * invLength) (y d * invLength) (z d * invLength) in
  let colX := mkVec3 ((zColY * y d) - (yColY * z d))
                     ((xColY * z d) - (zColY * x d))
                     ((yColY * x d) - (xColY * y d)) in
  let invLength := 1 / sqrtf (sqr (z colX) + sqr (y colX) + sqr (x colX)) in
  let colX := mkVec3 (x colX * invLength) (y colX * invLength) (z colX * invLength) in
  let zColY := (y d * x colX) - (x d * y colX) in
  let yColY := (x d * z colX) - (z d * x colX) in
  let xColY := (z d * y colX) - (y d * z colX) in
  let invLength := 1 / sqrtf (sqr zColY + sqr yColY + sqr xColY) in
  let zColY := zColY * invLength in
  let yColY := yColY * invLength in
  let xColY := xColY * invLength in
  st mtx 0 0 (z colX) ;;
  st mtx 1 0 (y colX) ;;
  st mtx 2 0 (x colX) ;;
  st mtx 3 0 (- ((xFrom * z colX) + (yFrom * y colX) + (zFrom * x colX))) ;;
  st mtx 0 1 zColY ;;
  st mtx 1 1 yColY ;;
  st mtx 2 1 xColY ;;
  st mtx 3 1 (- ((xFrom * zColY) + (yFrom * yColY) + (zFrom * xColY))) ;;
  st mtx 0 2 (z d) ;;
  st mtx 1 2 (y d) ;;
  st mtx 2 2 (x d) ;;
  st mtx 3 2 (- ((xFrom * z d) + (yFrom * y d) + (zFrom * x d))) ;;
  st mtx 0 3 0 ;;
  st mtx 1 3 0 ;;
  st mtx 2 3 0 ;;
  st mtx 3 3 1.

Definition gd_create_origin_lookat (mtx : ptr) (vec : GdVec3f F) : M unit :=
  let unit := mkVec3 (x vec) (y vec) (z vec) in
  let unit := snd (gd_normalize_vec3f unit) in
  let hMag := sqrtf (sqr (x unit) + sqr (z unit)) in
  gd_set_identity_mat4 mtx ;;
  if hMag != 0 then
    let invertedHMag := 1 / hMag in
    let units := y unit * x unit in
    st mtx 0 0 (- z unit * invertedHMag) ;;
    st mtx 1 0 (- units * invertedHMag) ;;
    st mtx 2 0 (- x unit) ;;
    st mtx 3 0 0 ;;
    st mtx 0 1 0 ;;
    st mtx 1 1 hMag ;;
    st mtx 2 1 (- y unit) ;;
    st mtx 3 1 0 ;;
    let units := y unit * z unit in
    st mtx 0 2 (x unit * invertedHMag) ;;
    st mtx 1 2 (- units * invertedHMag) ;;
    st mtx 2 2 (- z unit) ;;
    st mtx 3 2 0 ;;
    st mtx 0 3 0 ;;
    st mtx 1 3 0 ;;
    st mtx 2 3 0 ;;
    st mtx 3 3 1
  else
    st mtx 0 0 0 ;;
    st mtx 1 0 1 ;;
    st mtx 2 0 0 ;;
    st mtx 3 0 0 ;;
    st mtx 0 1 0 ;;
    st mtx 1 1 0 ;;
    st mtx 2 1 1 ;;
    st mtx 3 1 0 ;;
    st mtx 0 2 1 ;;
    st mtx 1 2 0 ;;
    st mtx 2 2 0 ;;
    st mtx 3 2 0 ;;
    st mtx 0 3 0 ;;
    st mtx 1 3 0 ;;
    st mtx 2 3 0 ;;
    st mtx 3 3 1.

End Routines.

(* ================================================================== *)
(** * Reference definitions

    The mathematical objects the routines are compared with.  They use
    the operations of [Scalar], so that they can be read in binary32 and
    in exact arithmetic alike. *)
(* ================================================================== *)

Section Reference.
Context {SC : Scalar}.
Local Open Scope fl_scope.

(** The matrix with the entries [f i j]. *)
Definition mat_init (f : nat -> nat -> F) : Mat4f F :=
  mkMat4 (mkRow4 (f 0 0) (f 0 1) (f 0 2) (f 0 3))
         (mkRow4 (f 1 0) (f 1 1) (f 1 2) (f 1 3))
         (mkRow4 (f 2 0) (f 2 1) (f 2 2) (f 2 3))
         (mkRow4 (f 3 0) (f 3 1) (f 3 2) (f 3 3)).

Definition kron (i j : nat) : F := if Nat.eqb i j then fconst 1 else fconst 0.

Definition identity_mat : Mat4f F := mat_init kron.

(** Row [i] of [A] times column [j] of [B], summed from the left. *)
Definition dot4 (A B : Mat4f F) (i j : nat) : F :=
  mget A i 0 * mget B 0 j + mget A i 1 * mget B 1 j
  + mget A i 2 * mget B 2 j + mget A i 3 * mget B 3 j.

(** The product [A . B]. *)
Definition mat_mul (A B : Mat4f F) : Mat4f F := mat_init (dot4 A B).

(** [skip k u] is the [u]-th index of 0..3 once [k] is left out. *)
Definition skip (k u : nat) : nat := if Nat.ltb u k then u else S u.

(** The 3x3 determinant of [m] without row [j] and column [i], taken
    on the transposed minor. *)
Definition minor3 (m : Mat4f F) (i j : nat) : F :=
  let N u v := mget m (skip j v) (skip i u) in
  gd_3x3_det (N 0 0) (N 0 1) (N 0 2)
             (N 1 0) (N 1 1) (N 1 2)
             (N 2 0) (N 2 1) (N 2 2).

(** The adjugate: entry [i][j] is the cofactor of entry [j][i]. *)
Definition adjugate (m : Mat4f F) : Mat4f F :=
  mat_init (fun i j => if Nat.even (i + j) then minor3 m i j else - minor3 m i j).

(** The determinant, expanded along row 0. *)
Definition det4 (m : Mat4f F) : F :=
  (mget m 0 0 * minor3 m 0 0 - mget m 0 1 * minor3 m 1 0)
  + mget m 0 2 * minor3 m 2 0
  - mget m 0 3 * minor3 m 3 0.

(** Every entry of [m] divided by [d]. *)
Definition mat_div (m : Mat4f F) (d : F) : Mat4f F :=
  mat_init (fun i j => mget m i j / d).

(** What [gd_shift_mat_up] is said to do: row 0's first three
    components become row 3, rows 1..3 move up by one, and the last
    column is (0,0,0,1). *)
Definition shift_rows_up_claimed (m : Mat4f F) : Mat4f F :=
  mat_init (fun i j =>
    if Nat.eqb j 3 then kron i 3
    else if Nat.eqb i 3 then mget m 0 j
    else mget m (S i) j).

(** What it does: the block of rows 1..3 and columns 1..3 moves up by
    one row and left by one column, row 3 receives columns 1..3 of
    row 0, and the last column is (0,0,0,1). *)
Definition shift_diagonal (m : Mat4f F) : Mat4f F :=
  mat_init (fun i j =>
    if Nat.eqb j 3 then kron i 3
    else if Nat.eqb i 3 then mget m 0 (S j)
    else mget m (S i) (S j)).

(** The closed form the rotation builder is said to produce,
    [R = (1-c) a a^T + c I + s [a]x], with the cross-product matrix
    [[a]x = ((0,-az,ay),(az,0,-ax),(-ay,ax,0))] of the axis [a]. *)
Definition axis_comp (a : GdVec3f F) (i : nat) : F :=
  match i with 0 => x a | 1 => y a | _ => z a end.

Definition cross_mat (a : GdVec3f F) (i j : nat) : F :=
  match i, j with
  | 0, 1 => - z a
  | 0, 2 => y a
  | 1, 0 => z a
  | 1, 2 => - x a
  | 2, 0 => - y a
  | 2, 1 => x a
  | _, _ => fconst 0
  end.

Definition closed_form (a : GdVec3f F) (s c : F) (i j : nat) : F :=
  (fconst 1 - c) * (axis_comp a i * axis_comp a j) + c * kron i j + s * cross_mat a i j.

(** The affine matrix with the 3x3 block [f] and last row and column
    (0,0,0,1). *)
Definition affine_of_block (f : nat -> nat -> F) : Mat4f F :=
  mat_init (fun i j => if Nat.ltb i 3 && Nat.ltb j 3 then f i j else kron i j).

(** The hardcoded basis of the zero-[hMag] branch of
    [gd_create_origin_lookat]. *)
Definition origin_lookat_fallback : Mat4f F :=
  let o := fconst 0 in
  let i := fconst 1 in
  mkMat4 (mkRow4 o o i o) (mkRow4 i o o o) (mkRow4 o i o o) (mkRow4 o o o i).

(** The matrix a run left behind [p], if the run returned. *)
Definition result_at {A} (r : Res F A) (p : ptr) : option (Mat4f F) :=
  match r with
  | Ok _ s => Some (mem s p)
  | Fatal _ => None
  end.

(** The matrix [gd_create_rot_matrix] writes for the axis [vec] and the
    pair [(s, c)]: what it leaves in buffer 0 of a store of identity
    matrices. *)
Definition rot_matrix (vec : GdVec3f F) (s c : F) : Mat4f F :=
  match result_at (gd_create_rot_matrix 0 vec s c (mkState 1 (fun _ => identity_mat))) 0 with
  | Some m => m
  | None => identity_mat
  end.

End Reference.

(* ================================================================== *)
(** * Concrete inputs (binary32) *)
(* ================================================================== *)

Module Examples.

Definition f (v : Z) : F32.t := F32.of_Z v.

Definition vec (a b c : Z) : GdVec3f F32.t := mkVec3 (f a) (f b) (f c).

(** [a] on the diagonal, zero elsewhere. *)
Definition diag (a : F32.t) : Mat4f F32.t :=
  mat_init (fun i j => if Nat.eqb i j then a else f 0).

(** Every entry equal to [a]. *)
Definition fill (a : F32.t) : Mat4f F32.t := mat_init (fun _ _ => a).

(** The entries 0, 1, ..., 15 in row-major order. *)
Definition counting : Mat4f F32.t :=
  mat_init (fun i j => f (Z.of_nat (4 * i + j))).

(** The translation by (0,1,0): the identity with [m[3][1] = 1]. *)
Definition translate_y : Mat4f F32.t :=
  mat_init (fun i j => if Nat.eqb i j then f 1
                       else if Nat.eqb i 3 && Nat.eqb j 1 then f 1 else f 0).

(** A store whose caller owns the buffers 0, 1 and 2; buffer 0 holds
    [m], every other buffer is filled with sevens. *)
Definition store_of (m : Mat4f F32.t) : State F32.t :=
  mkState 3 (fun p => if Nat.eqb p 0 then m else fill (f 7)).

(** A stand-in for the angle adapter: native angles are degrees, and
    sine and cosine are those of 0, 90, 180 and 270 degrees (0 for any
    other argument).  The axis selectors are numbered in the order
    x, y, z. *)
Definition quarter_turn : Externals f32_scalar := {|
  degrees_to_angle := fun d => d;
  sins := fun a => if SFeqb a (f 90) then f 1
                   else if SFeqb a (f 270) then f (-1) else f 0;
  coss := fun a => if SFeqb a (f 0) then f 1
                   else if SFeqb a (f 180) then f (-1) else f 0;
  GD_X_AXIS := 0;
  GD_Y_AXIS := 1;
  GD_Z_AXIS := 2
|}.

(** A store over the reals: one caller buffer, holding the identity. *)
Definition real_store : State R :=
  mkState 1 (fun _ => identity_mat (SC := R_scalar)).

(** A sample of binary32 vectors whose squared magnitude neither
    overflows nor underflows: the components a * 2^e, b * 2^e, c * 2^e
    for integers a, b, c in -8..8 and the exponents e below. *)
Definition sample_ints : list Z :=
  List.map (fun n => (Z.of_nat n - 8)%Z) (List.seq 0 17).

Definition sample_exps : list Z := (-60 :: -20 :: 0 :: 20 :: 60 :: nil)%Z.

Definition sample_vec (a b c e : Z) : GdVec3f F32.t :=
  mkVec3 (F32.of_pow2 a e) (F32.of_pow2 b e) (F32.of_pow2 c e).

(** [gd_normalize_vec3f] reports success on [v] and leaves a vector whose
    magnitude is within 2^-23 (one unit in the last place of 1) of 1. *)
Definition normalizes_to_unit (v : GdVec3f F32.t) : bool :=
  fst (gd_normalize_vec3f v)
  && SFleb (SFabs (SFsub F32.prec F32.emax
                     (gd_vec3f_magnitude (snd (gd_normalize_vec3f v))) (f 1)))
           (F32.of_pow2 1 (-23)).

(** [p] holds of every vector of the sample but the zero vectors. *)
Definition sample_all (p : GdVec3f F32.t -> bool) : bool :=
  forallb (fun e =>
    forallb (fun a =>
      forallb (fun b =>
        forallb (fun c =>
          (Z.eqb a 0 && Z.eqb b 0 && Z.eqb c 0) || p (sample_vec a b c e))
          sample_ints) sample_ints) sample_ints) sample_exps.

End Examples.

(* ================================================================== *)
(** * The other routines of [gd_math.c] *)
(* ================================================================== *)

(** [gd_rot_2d_vec] keeps the value of [degrees_to_angle] in an [s16]
    local and passes that to [sins] and [coss]: the adapter as that
    routine uses it. *)
Class Externals16 (SC : Scalar) : Type := {
  degrees_to_angle_s16 : F -> Z;
  sins_s16 : Z -> F;
  coss_s16 : Z -> F
}.

Section MoreRoutines.
Context {SC : Scalar} {EX : Externals SC} {EX16 : Externals16 SC}.

Local Open Scope fl_scope.
Local Open Scope gd_scope.

Notation "0" := (fconst 0) : fl_scope.
Notation "1" := (fconst 1) : fl_scope.
Notation "2" := (fconst 2) : fl_scope.
Notation "100" := (fconst 100) : fl_scope.

(** The compound assignments [m[i][j] *= k] and [m[i][j] += k]. *)
Definition mul_entry (mtx : ptr) (i j : nat) (k : F) : M unit :=
  v <- ld mtx i j ;; st mtx i j (v * k).
Definition add_entry (mtx : ptr) (i j : nat) (k : F) : M unit :=
  v <- ld mtx i j ;; st mtx i j (v + k).

Definition gd_scale_mat4f_by_vec3f (mtx : ptr) (vec : GdVec3f F) : M unit :=
  mul_entry mtx 0 0 (x vec) ;;
  mul_entry mtx 0 1 (x vec) ;;
  mul_entry mtx 0 2 (x vec) ;;
  mul_entry mtx 1 0 (y vec) ;;
  mul_entry mtx 1 1 (y vec) ;;
  mul_entry mtx 1 2 (y vec) ;;
  mul_entry mtx 2 0 (z vec) ;;
  mul_entry mtx 2 1 (z vec) ;;
  mul_entry mtx 2 2 (z vec).

Definition gd_rot_mat_about_vec (mtx : ptr) (vec : GdVec3f F) : M unit :=
  (if x vec != 0 then gd_absrot_mat4 mtx GD_X_AXIS (x vec) else ret tt) ;;
  (if y vec != 0 then gd_absrot_mat4 mtx GD_Y_AXIS (y vec) else ret tt) ;;
  (if z vec != 0 then gd_absrot_mat4 mtx GD_Z_AXIS (z vec) else ret tt).

Definition gd_add_vec3f_to_mat4f_offset (mtx : ptr) (vec : GdVec3f F) : M unit :=
  let vx := x vec in
  let vy := y vec in
  let vz := z vec in
  add_entry mtx 3 0 vx ;;
  add_entry mtx 3 1 vy ;;
  add_entry mtx 3 2 vz.

(** [gd_rot_2d_vec(deg, x, y)]: the pair left behind [x] and [y]. *)
Definition gd_rot_2d_vec (deg : F) (px py : F) : F * F :=
  let angle := degrees_to_angle_s16 deg in
  let xP := (px * coss_s16 angle) - (py * sins_s16 angle) in
  let yP := (px * sins_s16 angle) + (py * coss_s16 angle) in
  (xP, yP).

Definition gd_rot_mat_about_row (mat : ptr) (row : nat) (ang : F) : M unit :=
  with_local (fun rot =>
    vx <- ld mat row 0 ;;
    vy <- ld mat row 1 ;;
    vz <- ld mat row 2 ;;
    let vec := mkVec3 vx vy vz in
    gd_create_rot_mat_angular rot vec (ang / 2) ;;
    gd_mult_mat4f mat rot mat).

(** [gd_cross_vec3f] and its pointers to [struct GdVec3f], which may
    alias: [h] holds the vectors, and the routine returns the new [h]. *)
Definition vec_store : Type := ptr -> GdVec3f F.

Definition set_x (h : vec_store) (p : ptr) (v : F) : vec_store :=
  fun q => if Nat.eqb q p then mkVec3 v (y (h p)) (z (h p)) else h q.
Definition set_y (h : vec_store) (p : ptr) (v : F) : vec_store :=
  fun q => if Nat.eqb q p then mkVec3 (x (h p)) v (z (h p)) else h q.
Definition set_z (h : vec_store) (p : ptr) (v : F) : vec_store :=
  fun q => if Nat.eqb q p then mkVec3 (x (h p)) (y (h p)) v else h q.

Definition gd_cross_vec3f (a b dst : ptr) (h : vec_store) : vec_store :=
  let result := mkVec3 ((y (h a) * z (h b)) - (z (h a) * y (h b)))
                       ((z (h a) * x (h b)) - (x (h a) * z (h b)))
                       ((x (h a) * y (h b)) - (y (h a) * x (h b))) in
  let h := set_x h dst (x result) in
  let h := set_y h dst (y result) in
  let h := set_z h dst (z result) in
  h.

Definition gd_dot_vec3f (a b : GdVec3f F) : F :=
  (x a * x b) + (y a * y b) + (z a * z b).

Definition gd_invert_elements_mat4f (src dst : ptr) : M unit :=
  for_ 0 4 (fun i =>
    for_ 0 4 (fun j =>
      v <- ld src i j ;; st dst i j (1 / v))).

(** [gd_create_neg_vec_zero_first_mat_row]: the run returns the vector
    left behind [vec]. *)
Definition gd_create_neg_vec_zero_first_mat_row (mtx : ptr) (vx vy vz : F)
    : M (GdVec3f F) :=
  let vec := mkVec3 (- vx) (- vy) (- vz) in
  st mtx 0 0 1 ;;
  for_ 1 4 (fun i => st mtx 0 i 0) ;;
  ret vec.

(** [gd_quat_rotation]: the array left behind [quat].  The [s32] factor
    [sign] is converted to [f32] for the product [sign * s]. *)
Definition gd_quat_rotation (quat : Row4 F) (unused : Z) (c s : F) (i : nat) (sign : Z)
    : Row4 F :=
  let j := (i + 1)%nat in
  let j := if (4 <=? j)%nat then 1%nat else j in
  let k := (j + 1)%nat in
  let k := if (4 <=? k)%nat then 1%nat else k in
  let quatVal := rget quat i in
  let signs := fconst sign * s in
  let quat := rset quat i ((signs * rget quat 0) + (quatVal * c)) in
  let quat := rset quat 0 ((rget quat 0 * c) - (signs * quatVal)) in
  let quatVal := rget quat j in
  let quat := rset quat j ((rget quat k * s) + (quatVal * c)) in
  let quat := rset quat k ((rget quat k * c) - (s * quatVal)) in
  quat.

(** [gd_rotate_and_translate_vec3f] and [gd_mat4f_mult_vec3f]: the run
    returns the vector left behind [vec]. *)
Definition gd_rotate_and_translate_vec3f (vec : GdVec3f F) (mtx : ptr) : M (GdVec3f F) :=
  m00 <- ld mtx 0 0 ;; m10 <- ld mtx 1 0 ;; m20 <- ld mtx 2 0 ;;
  let outx := (m00 * x vec) + (m10 * y vec) + (m20 * z vec) in
  m01 <- ld mtx 0 1 ;; m11 <- ld mtx 1 1 ;; m21 <- ld mtx 2 1 ;;
  let outy := (m01 * x vec) + (m11 * y vec) + (m21 * z vec) in
  m02 <- ld mtx 0 2 ;; m12 <- ld mtx 1 2 ;; m22 <- ld mtx 2 2 ;;
  let outz := (m02 * x vec) + (m12 * y vec) + (m22 * z vec) in
  m30 <- ld mtx 3 0 ;;
  let outx := outx + m30 in
  m31 <- ld mtx 3 1 ;;
  let outy := outy + m31 in
  m32 <- ld mtx 3 2 ;;
  let outz := outz + m32 in
  ret (mkVec3 outx outy outz).

Definition gd_mat4f_mult_vec3f (vec : GdVec3f F) (mtx : ptr) : M (GdVec3f F) :=
  m00 <- ld mtx 0 0 ;; m10 <- ld mtx 1 0 ;; m20 <- ld mtx 2 0 ;;
  let outx := (m00 * x vec) + (m10 * y vec) + (m20 * z vec) in
  m01 <- ld mtx 0 1 ;; m11 <- ld mtx 1 1 ;; m21 <- ld mtx 2 1 ;;
  let outy := (m01 * x vec) + (m11 * y vec) + (m21 * z vec) in
  m02 <- ld mtx 0 2 ;; m12 <- ld mtx 1 2 ;; m22 <- ld mtx 2 2 ;;
  let outz := (m02 * x vec) + (m12 * y vec) + (m22 * z vec) in
  ret (mkVec3 outx outy outz).

(** [gd_rot_mat_offset]; [copy] is the [s32] flag. *)
Definition gd_rot_mat_offset (dst : ptr) (vx vy vz : F) (copy : Z) : M unit :=
  with_local (fun rot =>
    let adj := 100 in
    let opp := sqrtf (sqr vx + sqr vy + sqr vz) in
    if opp == 0 then
      (if negb (Z.eqb copy 0%Z) then gd_set_identity_mat4 dst else ret tt)
    else
      let mag := sqrtf (sqr adj + sqr opp) in
      let c := adj / mag in
      let s := opp / mag in
      let vec := mkVec3 (- vy / opp) (- vx / opp) (- vz / opp) in
      gd_create_rot_matrix rot vec s c ;;
      if Z.eqb copy 0%Z then gd_mult_mat4f dst rot dst
      else gd_copy_mat4f rot dst).

End MoreRoutines.

(** Reference definitions for the other routines. *)
Section MoreReference.
Context {SC : Scalar}.
Local Open Scope fl_scope.

(** The transpose. *)
Definition transpose (m : Mat4f F) : Mat4f F := mat_init (fun i j => mget m j i).

(** The row vector [v] times the 3x3 block of [m]. *)
Definition vec_times_block (v : GdVec3f F) (m : Mat4f F) : GdVec3f F :=
  mkVec3 (mget m 0 0 * x v + mget m 1 0 * y v + mget m 2 0 * z v)
         (mget m 0 1 * x v + mget m 1 1 * y v + mget m 2 1 * z v)
         (mget m 0 2 * x v + mget m 1 2 * y v + mget m 2 2 * z v).

(** The translation row of [m]. *)
Definition translation (m : Mat4f F) : GdVec3f F :=
  mkVec3 (mget m 3 0) (mget m 3 1) (mget m 3 2).

Definition vec_add (a b : GdVec3f F) : GdVec3f F :=
  mkVec3 (x a + x b) (y a + y b) (z a + z b).

(** The point [v] mapped by the affine matrix [m]. *)
Definition transform_point (v : GdVec3f F) (m : Mat4f F) : GdVec3f F :=
  vec_add (vec_times_block v m) (translation m).

(** The cross product. *)
Definition cross (a b : GdVec3f F) : GdVec3f F :=
  mkVec3 (y a * z b - z a * y b) (z a * x b - x a * z b) (x a * y b - y a * x b).

(** Column [j] of the 3x3 block of [m]. *)
Definition block_column (m : Mat4f F) (j : nat) : GdVec3f F :=
  mkVec3 (mget m 0 j) (mget m 1 j) (mget m 2 j).

(** The last column of [m] is (0,0,0,1). *)
Definition last_column_homogeneous (m : Mat4f F) : Prop :=
  mget m 0 3 = fconst 0 /\ mget m 1 3 = fconst 0
  /\ mget m 2 3 = fconst 0 /\ mget m 3 3 = fconst 1.

(** The value a run returned, if it returned. *)
Definition value_of {A} (r : Res F A) : option A :=
  match r with
  | Ok a _ => Some a
  | Fatal _ => None
  end.

(** The store a run left, if it returned. *)
Definition store_after {A} (r : Res F A) : option (State F) :=
  match r with
  | Ok _ s => Some s
  | Fatal _ => None
  end.

End MoreReference.

(** ** Concrete inputs over the reals *)

Module RealExamples.

(** The entries 0, 1, ..., 15 in row-major order. *)
Definition counting : Mat4f R :=
  mat_init (SC := R_scalar) (fun i j => IZR (Z.of_nat (4 * i + j))).

(** The diagonal matrix with the entries a, b, c, d. *)
Definition diag (a b c d : R) : Mat4f R :=
  (mkMat4 (mkRow4 a 0 0 0) (mkRow4 0 b 0 0) (mkRow4 0 0 c 0) (mkRow4 0 0 0 d))%R.

(** Every entry equal to [a]. *)
Definition fill (a : R) : Mat4f R := mat_init (SC := R_scalar) (fun _ _ => a).

(** A store whose caller owns the buffers 0..3; buffer 0 holds [m],
    buffer 1 holds [n], the others the identity. *)
Definition store_of (m n : Mat4f R) : State R :=
  mkState 4 (fun p => if Nat.eqb p 0 then m
                      else if Nat.eqb p 1 then n
                      else identity_mat (SC := R_scalar)).

(** Stand-ins for the angle adapter: the sine 3/5 and the cosine 4/5
    for every angle; the axis selectors are numbered in the order
    x, y, z. *)
Definition adapter : Externals R_scalar :=
  @Build_Externals R_scalar (fun d => d) (fun _ => (3 / 5)%R) (fun _ => (4 / 5)%R)
    0%Z 1%Z 2%Z.

Definition adapter16 : Externals16 R_scalar :=
  @Build_Externals16 R_scalar (fun _ => 0%Z) (fun _ => (3 / 5)%R) (fun _ => (4 / 5)%R).

End RealExamples.

(* ================================================================== *)
(** * Reasoning about runs *)
(* ================================================================== *)

Section StoreLemmas.
Context {SC : Scalar}.

Lemma state_ext (s s' : State F) :
  sp s = sp s' -> (forall q, mem s q = mem s' q) -> s = s'.
Proof.
  destruct s as [n h], s' as [n' h']; cbn; intros -> H.
  f_equal. apply functional_extensionality, H.
Qed.

Lemma mem_set_same (s : State F) p m : mem (set_mat s p m) p = m.
Proof. cbn. now rewrite Nat.eqb_refl. Qed.

Lemma mem_set_other (s : State F) p q m :
  q <> p -> mem (set_mat s p m) q = mem s q.
Proof. intros H. cbn. apply Nat.eqb_neq in H. now rewrite H. Qed.

Lemma set_set_same (s : State F) p m m' :
  set_mat (set_mat s p m) p m' = set_mat s p m'.
Proof.
  apply state_ext; [reflexivity|]. intros q. cbn. now destruct (Nat.eqb q p).
Qed.

Lemma set_mat_id (s : State F) p : set_mat s p (mem s p) = s.
Proof.
  apply state_ext; [reflexivity|]. intros q. cbn.
  destruct (Nat.eqb_spec q p); congruence.
Qed.

Lemma mat_eta (m : Mat4f F) :
  mkMat4 (mkRow4 (e0 (row0 m)) (e1 (row0 m)) (e2 (row0 m)) (e3 (row0 m)))
         (mkRow4 (e0 (row1 m)) (e1 (row1 m)) (e2 (row1 m)) (e3 (row1 m)))
         (mkRow4 (e0 (row2 m)) (e1 (row2 m)) (e2 (row2 m)) (e3 (row2 m)))
         (mkRow4 (e0 (row3 m)) (e1 (row3 m)) (e2 (row3 m)) (e3 (row3 m))) = m.
Proof. now destruct m as [[] [] [] []]. Qed.

Lemma mget_mset_same (m : Mat4f F) i j v : mget (mset m i j v) i j = v.
Proof. destruct i as [|[|[|i]]], j as [|[|[|j]]]; reflexivity. Qed.

Lemma mset_mset_same (m : Mat4f F) i j v w :
  mset (mset m i j v) i j w = mset m i j w.
Proof. destruct i as [|[|[|i]]], j as [|[|[|j]]]; reflexivity. Qed.

(** One step of a run. *)
Lemma bind_ld {B} p i j (k : F -> M B) s :
  bind (ld p i j) k s = k (mget (mem s p) i j) s.
Proof. reflexivity. Qed.

Lemma bind_st {B} p i j v (k : unit -> M B) s :
  bind (st p i j v) k s = k tt (set_mat s p (mset (mem s p) i j v)).
Proof. reflexivity. Qed.

Lemma run_st p i j v (s : State F) :
  st p i j v s = Ok tt (set_mat s p (mset (mem s p) i j v)).
Proof. reflexivity. Qed.

Lemma bind_ret {A B} (a : A) (k : A -> M B) (s : State F) :
  bind (ret a) k s = k a s.
Proof. reflexivity. Qed.

Lemma run_ret {A} (a : A) (s : State F) : ret a s = Ok a s.
Proof. reflexivity. Qed.

Lemma bind_assoc {A B C} (m : M A) (f : A -> M B) (g : B -> M C) (s : State F) :
  bind (bind m f) g s = bind m (fun a => bind (f a) g) s.
Proof. unfold bind. now destruct (m s). Qed.

Lemma bind_Ok {A B} (m : M A) (k : A -> M B) (s s' : State F) a :
  m s = Ok a s' -> bind m k s = k a s'.
Proof. unfold bind. now intros ->. Qed.

Lemma bind_Fatal {A B} (m : M A) (k : A -> M B) (s : State F) msg :
  m s = Fatal msg -> bind m k s = Fatal msg.
Proof. unfold bind. now intros ->. Qed.

End StoreLemmas.

(** Side conditions on pointers. *)
Ltac ptr_side := first [ assumption | congruence | lia | cbn [sp set_mat]; lia ].

(** Reads and writes of the store brought to the form
    [set_mat s p m], with [m] written out entry by entry. *)
Ltac norm_mem :=
  repeat first
    [ rewrite mem_set_same
    | rewrite set_set_same
    | rewrite mem_set_other by ptr_side ];
  cbn [mget mset rget rset mrow row0 row1 row2 row3 e0 e1 e2 e3].

(** One statement of a routine. *)
Ltac step :=
  first
    [ rewrite bind_ld
    | rewrite bind_st
    | rewrite bind_ret
    | rewrite run_st
    | rewrite run_ret
    | rewrite bind_assoc ];
  cbv beta; norm_mem.

(** Loops with constant bounds, unrolled. *)
Ltac unroll :=
  cbn [for_ for_from for_acc for_acc_from Nat.sub Nat.add Nat.leb].

Section RunLemmas.
Context {SC : Scalar}.
Local Open Scope gd_scope.

Lemma gd_copy_mat4f_run (src dst : ptr) (s : State F) :
  gd_copy_mat4f src dst s = Ok tt (set_mat s dst (mem s src)).
Proof.
  unfold gd_copy_mat4f, copy_entry.
  destruct (Nat.eq_dec src dst) as [->|Hne].
  - repeat step. now rewrite mat_eta, set_mat_id.
  - repeat step. now rewrite mat_eta.
Qed.

Lemma GD_MAT4_DOT_PROD_run (A B R : ptr) (row col : nat) (s : State F) :
  R <> A -> R <> B ->
  GD_MAT4_DOT_PROD A B R row col s =
    Ok tt (set_mat s R (mset (mem s R) row col (dot4 (mem s A) (mem s B) row col))).
Proof.
  intros HA HB. unfold GD_MAT4_DOT_PROD.
  assert (HA' : A <> R) by congruence. assert (HB' : B <> R) by congruence.
  repeat (first [ rewrite bind_ld | rewrite bind_st | rewrite run_st ]; cbv beta;
          repeat first [ rewrite mem_set_same | rewrite set_set_same
                       | rewrite mem_set_other by assumption
                       | rewrite mget_mset_same | rewrite mset_mset_same ]).
  reflexivity.
Qed.

Lemma GD_MAT4_MULTIPLY_run (A B R : ptr) (s : State F) :
  R <> A -> R <> B ->
  GD_MAT4_MULTIPLY A B R s = Ok tt (set_mat s R (mat_mul (mem s A) (mem s B))).
Proof.
  intros HA HB. unfold GD_MAT4_MULTIPLY.
  assert (HA' : A <> R) by congruence. assert (HB' : B <> R) by congruence.
  repeat (erewrite bind_Ok by (apply GD_MAT4_DOT_PROD_run; assumption);
          repeat first [ rewrite mem_set_same | rewrite set_set_same
                       | rewrite mem_set_other by assumption ]).
  rewrite GD_MAT4_DOT_PROD_run by assumption.
  repeat first [ rewrite mem_set_same | rewrite set_set_same
               | rewrite mem_set_other by assumption ].
  reflexivity.
Qed.

(** The local [res] of [gd_mult_mat4f] is the first free buffer: it
    keeps the product when the routine has returned. *)
Lemma gd_mult_mat4f_run (mA mB dst : ptr) (s : State F) :
  mA < sp s -> mB < sp s -> dst < sp s ->
  gd_mult_mat4f mA mB dst s =
    Ok tt (set_mat (set_mat s (sp s) (mat_mul (mem s mA) (mem s mB)))
                   dst (mat_mul (mem s mA) (mem s mB))).
Proof.
  intros HA HB HD. unfold gd_mult_mat4f, with_local.
  erewrite bind_Ok by (apply GD_MAT4_MULTIPLY_run; cbn [sp]; lia).
  rewrite gd_copy_mat4f_run. rewrite mem_set_same. reflexivity.
Qed.

Lemma read_InvMat4_run {B} (m : ptr) (k : InvMat4 F -> M B) (s : State F) :
  bind (read_InvMat4 m) k s =
    k (let a := mem s m in
       mkInvMat4
         (mkInvRow (mget a 3 3) (mget a 2 3) (mget a 1 3) (mget a 0 3))
         (mkInvRow (mget a 3 2) (mget a 2 2) (mget a 1 2) (mget a 0 2))
         (mkInvRow (mget a 3 1) (mget a 2 1) (mget a 1 1) (mget a 0 1))
         (mkInvRow (mget a 3 0) (mget a 2 0) (mget a 1 0) (mget a 0 0))) s.
Proof. reflexivity. Qed.

Lemma gd_adjunct_mat4f_run (src dst : ptr) (s : State F) :
  gd_adjunct_mat4f src dst s = Ok tt (set_mat s dst (adjugate (mem s src))).
Proof.
  unfold gd_adjunct_mat4f. rewrite read_InvMat4_run. cbv zeta.
  cbn [r0 r1 r2 r3 c0 c1 c2 c3].
  repeat step. reflexivity.
Qed.

Lemma gd_mat4f_det_run (mtx : ptr) (s : State F) :
  gd_mat4f_det mtx s = Ok (det4 (mem s mtx)) s.
Proof. reflexivity. Qed.

(** The closing double loop of [gd_inverse_mat4f]. *)
Lemma divide_entries_run (dst : ptr) (d : F) (s : State F) :
  for_ 0 4 (fun i => for_ 0 4 (fun j =>
    v <- ld dst i j ;; st dst i j (v / d)%fl)) s =
  Ok tt (set_mat s dst (mat_div (mem s dst) d)).
Proof. unroll. repeat step. reflexivity. Qed.

Lemma gd_inverse_mat4f_run (src dst : ptr) (s : State F) :
  gd_inverse_mat4f src dst s =
    let adj := adjugate (mem s src) in
    let determinant := det4 adj in
    if flt_1em5 (absf determinant)
    then Fatal "Non-singular matrix, no inverse!\n"
    else Ok tt (set_mat s dst (mat_div adj determinant)).
Proof.
  unfold gd_inverse_mat4f. cbv zeta.
  erewrite bind_Ok by apply gd_adjunct_mat4f_run.
  erewrite bind_Ok by apply gd_mat4f_det_run.
  rewrite mem_set_same.
  destruct (flt_1em5 (absf (det4 (adjugate (mem s src))))).
  - reflexivity.
  - rewrite bind_ret, divide_entries_run, mem_set_same, set_set_same. reflexivity.
Qed.

Lemma gd_shift_mat_up_run (mtx : ptr) (s : State F) :
  gd_shift_mat_up mtx s = Ok tt (set_mat s mtx (shift_diagonal (mem s mtx))).
Proof. unfold gd_shift_mat_up. unroll. repeat step. reflexivity. Qed.

Lemma gd_set_identity_mat4_run (mtx : ptr) (s : State F) :
  gd_set_identity_mat4 mtx s = Ok tt (set_mat s mtx identity_mat).
Proof. unfold gd_set_identity_mat4. repeat step. reflexivity. Qed.

Lemma gd_create_rot_matrix_run (mtx : ptr) (vec : GdVec3f F) (sn cs : F) (s : State F) :
  gd_create_rot_matrix mtx vec sn cs s = Ok tt (set_mat s mtx (rot_matrix vec sn cs)).
Proof.
  unfold rot_matrix, gd_create_rot_matrix. cbv zeta. cbn [x y z].
  repeat step. reflexivity.
Qed.

(** The matrix [gd_create_quat_rot_mat] leaves: its last column is
    (0,0,0,1), and its last row starts with the entries 1..3 of row 0 of
    the matrix the buffer held before the call. *)
Lemma gd_create_quat_rot_mat_run (quat : Row4 F) (unused : Z) (mtx : ptr) (s : State F) :
  exists m' : Mat4f F,
    gd_create_quat_rot_mat quat unused mtx s = Ok tt (set_mat s mtx m')
    /\ row3 m' = mkRow4 (mget (mem s mtx) 0 1) (mget (mem s mtx) 0 2)
                        (mget (mem s mtx) 0 3) (fconst 1)
    /\ e3 (row0 m') = fconst 0 /\ e3 (row1 m') = fconst 0 /\ e3 (row2 m') = fconst 0.
Proof.
  unfold gd_create_quat_rot_mat. unroll. cbv zeta.
  repeat step.
  eexists. split.
  - rewrite gd_shift_mat_up_run. norm_mem. reflexivity.
  - cbn. repeat split.
Qed.

End RunLemmas.

(* ================================================================== *)
(** * Inverse, adjugate and determinant *)
(* ================================================================== *)

Section InverseTheorems.
Context {SC : Scalar}.
Local Open Scope gd_scope.

(** C5.  [gd_inverse_mat4f] first leaves the adjugate of the source in
    the destination, then takes the determinant of that adjugate (of
    the destination buffer, not of the source), ends in the fatal
    error reporter exactly when [absf determinant < 1e-5] holds, and
    otherwise leaves in the destination each of the sixteen entries of
    the adjugate divided by that determinant.  The determinant of the
    adjugate is a different number from the determinant of the source:
    for twice the identity they are 4096 and 16. *)
Theorem gd_inverse_mat4f_divides_adjugate_by_its_determinant :
  forall (s : State F) (src dst : ptr),
    let adj := adjugate (mem s src) in
    let determinant := det4 adj in
    gd_adjunct_mat4f src dst s = Ok tt (set_mat s dst adj)
    /\ gd_mat4f_det dst (set_mat s dst adj) = Ok determinant (set_mat s dst adj)
    /\ gd_inverse_mat4f src dst s =
         (if flt_1em5 (absf determinant)
          then Fatal "Non-singular matrix, no inverse!\n"
          else Ok tt (set_mat s dst
                 (mat_init (fun i j => (mget adj i j / determinant)%fl))))
    /\ det4 (SC := f32_scalar) (adjugate (SC := f32_scalar) (Examples.diag (Examples.f 2)))
       = Examples.f 4096
    /\ det4 (SC := f32_scalar) (Examples.diag (Examples.f 2)) = Examples.f 16.
Proof.
  intros s src dst adj determinant.
  split; [|split; [|split; [|split]]].
  - apply gd_adjunct_mat4f_run.
  - rewrite gd_mat4f_det_run, mem_set_same. reflexivity.
  - apply gd_inverse_mat4f_run.
  - vm_compute. reflexivity.
  - vm_compute. reflexivity.
Qed.

(** C10.  [gd_adjunct_mat4f] leaves the same matrix, the adjugate of
    the source, in its destination whether the destination is the
    source buffer or any other buffer; [gd_mat4f_det] reads its matrix
    and leaves the store as it was; and [gd_inverse_mat4f] run in place
    ends as it does with another destination: both runs are fatal, or
    both return with the same matrix in their destinations. *)
Theorem adjunct_and_inverse_are_alias_insensitive :
  forall (s : State F) (src dst : ptr),
    result_at (gd_adjunct_mat4f src src s) src = Some (adjugate (mem s src))
    /\ result_at (gd_adjunct_mat4f src dst s) dst = Some (adjugate (mem s src))
    /\ gd_mat4f_det src s = Ok (det4 (mem s src)) s
    /\ result_at (gd_inverse_mat4f src src s) src
       = result_at (gd_inverse_mat4f src dst s) dst.
Proof.
  intros s src dst.
  split; [|split; [|split]].
  - rewrite gd_adjunct_mat4f_run. cbn [result_at]. now rewrite mem_set_same.
  - rewrite gd_adjunct_mat4f_run. cbn [result_at]. now rewrite mem_set_same.
  - apply gd_mat4f_det_run.
  - rewrite !gd_inverse_mat4f_run. cbv zeta.
    destruct (flt_1em5 (absf (det4 (adjugate (mem s src))))); cbn [result_at].
    + reflexivity.
    + now rewrite !mem_set_same.
Qed.

End InverseTheorems.

(** Matrices over the reals, written out and compared entry by entry. *)
Ltac real_unfold :=
  cbv beta iota zeta delta
    [fadd fsub fmul fdiv fneg fconst F R_scalar sqr x y z
     mat_mul mat_div dot4 adjugate det4 minor3 skip gd_3x3_det gd_2x2_det
     mget mrow rget row0 row1 row2 row3 e0 e1 e2 e3
     mat_init kron axis_comp cross_mat
     Nat.even Nat.add Nat.eqb Nat.ltb Nat.leb andb];
  unfold Rdiv.
Ltac real_matrix := real_unfold; repeat (f_equal; try ring).

(** In exact arithmetic [adjugate] and [det4] are the adjugate and the
    determinant: m . adj m = det m . I, and det (adj m) = (det m)^3. *)
Lemma mat_mul_adjugate_R (m : Mat4f R) (d : R) :
  mat_mul (SC := R_scalar) m (mat_div (SC := R_scalar) (adjugate (SC := R_scalar) m) d)
  = mat_init (SC := R_scalar)
      (fun i j => (det4 (SC := R_scalar) m * kron (SC := R_scalar) i j / d)%R).
Proof.
  destruct m as [[a00 a01 a02 a03] [a10 a11 a12 a13]
                 [a20 a21 a22 a23] [a30 a31 a32 a33]].
  real_matrix.
Qed.

Lemma det4_adjugate_R (m : Mat4f R) :
  det4 (SC := R_scalar) (adjugate (SC := R_scalar) m)
  = (det4 (SC := R_scalar) m * det4 (SC := R_scalar) m * det4 (SC := R_scalar) m)%R.
Proof.
  destruct m as [[a00 a01 a02 a03] [a10 a11 a12 a13]
                 [a20 a21 a22 a23] [a30 a31 a32 a33]].
  real_unfold. ring.
Qed.

(** C1.  On twice the identity (determinant 16) [gd_inverse_mat4f]
    returns 1/512 on the diagonal (and zeros, negative where row plus
    column is odd), where the inverse has 1/2, so that the product of the
    matrix with it is 1/256 times the identity and not the identity; on
    the all-zeros matrix it ends in the fatal error reporter.  In exact
    arithmetic, for every matrix m with determinant d, the routine is
    fatal when |d^3| < 1e-5 and otherwise returns the adjugate divided by
    d^3, and the product of m with that is d . I / d^3, the identity
    divided by d^2. *)
Theorem gd_inverse_mat4f_divides_by_cubed_determinant :
  (let s := Examples.store_of (Examples.diag (Examples.f 2)) in
   let run := bind (gd_inverse_mat4f 0 1) (fun _ => gd_mult_mat4f 0 1 2) s in
   result_at (gd_inverse_mat4f 0 1 s) 1
     = Some (mat_init (fun i j =>
               if Nat.eqb i j then F32.of_pow2 1 (-9)
               else if Nat.even (i + j) then Examples.f 0 else SFopp (Examples.f 0)))
   /\ result_at run 2 = Some (Examples.diag (F32.of_pow2 1 (-8)))
   /\ result_at run 2 <> Some identity_mat
   /\ gd_inverse_mat4f 0 1 (Examples.store_of (Examples.diag (Examples.f 0)))
      = Fatal "Non-singular matrix, no inverse!\n")
  /\ (forall (s : State R) (src dst : ptr),
        let m := mem s src in
        let d := det4 (SC := R_scalar) m in
        let inverse := mat_div (SC := R_scalar) (adjugate (SC := R_scalar) m) (d * d * d)%R in
        gd_inverse_mat4f (SC := R_scalar) src dst s
        = (if Rltb (Rabs (d * d * d)) (1 / 100000)
           then Fatal "Non-singular matrix, no inverse!\n"
           else Ok tt (set_mat (SC := R_scalar) s dst inverse))
        /\ mat_mul (SC := R_scalar) m inverse
           = mat_init (SC := R_scalar)
               (fun i j => (d * kron (SC := R_scalar) i j / (d * d * d))%R)).
Proof.
  split.
  - cbv zeta. split; [|split; [|split]].
    + vm_compute. reflexivity.
    + vm_compute. reflexivity.
    + vm_compute. discriminate.
    + vm_compute. reflexivity.
  - intros s src dst m d inverse. split.
    + rewrite (gd_inverse_mat4f_run (SC := R_scalar)). cbv zeta.
      fold m. rewrite det4_adjugate_R. fold d. reflexivity.
    + apply mat_mul_adjugate_R.
Qed.

(* ================================================================== *)
(** * The row shift and the quaternion builder *)
(* ================================================================== *)

(** C3, as stated, fails: on the matrix with the entries 0..15,
    [gd_shift_mat_up] does not leave rows 1..3 moved up by one with the
    first three components of row 0 below them. *)
Lemma gd_shift_mat_up_is_not_a_row_shift :
  result_at (gd_shift_mat_up 0 (Examples.store_of Examples.counting)) 0
  <> Some (shift_rows_up_claimed Examples.counting).
Proof. vm_compute. discriminate. Qed.

(** C3, amended.  For every matrix, [gd_shift_mat_up] moves the block of
    rows 1..3 and columns 1..3 up by one row and left by one column, puts
    the last three components of row 0 (columns 1..3) into columns 0..2 of
    row 3, and sets the last column to (0,0,0,1); no other buffer
    changes. *)
Theorem gd_shift_mat_up_shifts_diagonally :
  forall (SC : Scalar) (s : State F) (mtx : ptr),
    let m := mem s mtx in
    gd_shift_mat_up mtx s =
      Ok tt (set_mat s mtx
        (mkMat4
           (mkRow4 (mget m 1 1) (mget m 1 2) (mget m 1 3) (fconst 0))
           (mkRow4 (mget m 2 1) (mget m 2 2) (mget m 2 3) (fconst 0))
           (mkRow4 (mget m 3 1) (mget m 3 2) (mget m 3 3) (fconst 0))
           (mkRow4 (mget m 0 1) (mget m 0 2) (mget m 0 3) (fconst 1)))).
Proof. intros SC s mtx m. rewrite gd_shift_mat_up_run. reflexivity. Qed.

(** C4.  [gd_create_quat_rot_mat] assigns only entry [0][0] of row 0.
    Called with the identity quaternion on a buffer filled with sevens it
    leaves (7,7,7,1) as the last row, where a homogeneous last row is
    (0,0,0,1); for every input the last row is made of the entries 1..3
    that row 0 of the buffer held before the call. *)
Theorem gd_create_quat_rot_mat_keeps_old_row0 :
  result_at (gd_create_quat_rot_mat
               (mkRow4 (Examples.f 1) (Examples.f 0) (Examples.f 0) (Examples.f 0))
               0 0 (Examples.store_of (Examples.fill (Examples.f 7)))) 0
  = Some (mkMat4
            (mkRow4 (Examples.f 1) (Examples.f 0) (Examples.f 0) (Examples.f 0))
            (mkRow4 (Examples.f 0) (Examples.f 1) (Examples.f 0) (Examples.f 0))
            (mkRow4 (Examples.f 0) (Examples.f 0) (Examples.f 1) (Examples.f 0))
            (mkRow4 (Examples.f 7) (Examples.f 7) (Examples.f 7) (Examples.f 1)))
  /\ forall (SC : Scalar) (quat : Row4 F) (unused : Z) (mtx : ptr) (s : State F),
       exists m' : Mat4f F,
         gd_create_quat_rot_mat quat unused mtx s = Ok tt (set_mat s mtx m')
         /\ row3 m' = mkRow4 (mget (mem s mtx) 0 1) (mget (mem s mtx) 0 2)
                             (mget (mem s mtx) 0 3) (fconst 1).
Proof.
  split.
  - vm_compute. reflexivity.
  - intros SC quat unused mtx s.
    destruct (gd_create_quat_rot_mat_run quat unused mtx s) as (m' & H1 & H2 & _).
    exists m'. split; assumption.
Qed.

(* ================================================================== *)
(** * Rotations *)
(* ================================================================== *)

Section RotationLemmas.
Context {SC : Scalar} {EX : Externals SC}.
Local Open Scope gd_scope.

Lemma gd_create_rot_mat_angular_run (mtx : ptr) (vec : GdVec3f F) (deg : F) (s : State F) :
  gd_create_rot_mat_angular mtx vec deg s =
    Ok tt (set_mat s mtx
             (rot_matrix vec (sins (degrees_to_angle (deg * fconst 2)%fl))
                             (coss (degrees_to_angle (deg * fconst 2)%fl)))).
Proof. unfold gd_create_rot_mat_angular. cbv zeta. apply gd_create_rot_matrix_run. Qed.

(** The run of [gd_absrot_mat4] once the [switch] has produced the axis
    vector [v]. *)
Lemma absrot_body_run (mtx : ptr) (axisnum : Z) (v : GdVec3f F) (ang : F) (s : State F) :
  mtx < sp s ->
  absrot_axis axisnum = ret v ->
  result_at (gd_absrot_mat4 mtx axisnum ang s) mtx
  = Some (mat_mul (mem s mtx)
            (rot_matrix v (sins (degrees_to_angle (ang / fconst 2 * fconst 2)%fl))
                          (coss (degrees_to_angle (ang / fconst 2 * fconst 2)%fl)))).
Proof.
  intros Hm Hv. unfold gd_absrot_mat4, with_local.
  rewrite Hv, bind_ret.
  erewrite bind_Ok by apply gd_create_rot_mat_angular_run.
  rewrite gd_mult_mat4f_run by (cbn [sp set_mat]; lia).
  cbn [result_at mem].
  rewrite mem_set_same.
  rewrite mem_set_other by (cbn [sp]; lia).
  rewrite mem_set_same. reflexivity.
Qed.

Lemma absrot_fatal_run (mtx : ptr) (axisnum : Z) (ang : F) (s : State F) :
  axisnum <> GD_X_AXIS -> axisnum <> GD_Y_AXIS -> axisnum <> GD_Z_AXIS ->
  gd_absrot_mat4 mtx axisnum ang s = Fatal "absrot_matrix4(): Bad axis num".
Proof.
  intros HX HY HZ. unfold gd_absrot_mat4, with_local, absrot_axis.
  apply Z.eqb_neq in HX, HY, HZ. rewrite HX, HY, HZ. reflexivity.
Qed.

End RotationLemmas.

(** C2, as stated, fails: with sine 1 and cosine 0 for the doubled half
    angle, [gd_absrot_mat4] about the x axis applied to the translation by
    (0,1,0) does not leave the product rotation . mtx in [mtx]. *)
Lemma gd_absrot_mat4_is_not_a_left_product :
  let s := Examples.store_of Examples.translate_y in
  let rotation := rot_matrix (Examples.vec 1 0 0) (Examples.f 1) (Examples.f 0) in
  result_at (gd_absrot_mat4 (EX := Examples.quarter_turn) 0
               (GD_X_AXIS (Externals := Examples.quarter_turn)) (Examples.f 90) s) 0
  <> Some (mat_mul rotation (mem s 0)).
Proof. vm_compute. discriminate. Qed.

(** C2, amended.  For every matrix [mtx], recognised axis selector and
    angle [ang], [gd_absrot_mat4] takes the unit vector of that axis,
    has [gd_create_rot_mat_angular] build the rotation matrix for it from
    [ang / 2], and replaces [mtx] by the product mtx . rotation (the
    rotation is the right factor); for every other selector it ends in
    the fatal error reporter. *)
Theorem gd_absrot_mat4_multiplies_on_the_right :
  forall (SC : Scalar) (EX : Externals SC) (s : State F) (mtx : ptr) (axisnum : Z) (ang : F),
    mtx < sp s ->
    GD_X_AXIS <> GD_Y_AXIS -> GD_X_AXIS <> GD_Z_AXIS -> GD_Y_AXIS <> GD_Z_AXIS ->
    let a := degrees_to_angle (ang / fconst 2 * fconst 2)%fl in
    let rotation v := rot_matrix v (sins a) (coss a) in
    let rotated v :=
      result_at (gd_absrot_mat4 mtx axisnum ang s) mtx
      = Some (mat_mul (mem s mtx) (rotation v)) in
    (forall (p : ptr) (v : GdVec3f F) (s0 : State F),
        gd_create_rot_mat_angular p v (ang / fconst 2)%fl s0
        = Ok tt (set_mat s0 p (rotation v)))
    /\ (axisnum = GD_X_AXIS -> rotated (mkVec3 (fconst 1) (fconst 0) (fconst 0)))
    /\ (axisnum = GD_Y_AXIS -> rotated (mkVec3 (fconst 0) (fconst 1) (fconst 0)))
    /\ (axisnum = GD_Z_AXIS -> rotated (mkVec3 (fconst 0) (fconst 0) (fconst 1)))
    /\ (axisnum <> GD_X_AXIS -> axisnum <> GD_Y_AXIS -> axisnum <> GD_Z_AXIS ->
        gd_absrot_mat4 mtx axisnum ang s = Fatal "absrot_matrix4(): Bad axis num").
Proof.
  intros SC EX s mtx axisnum ang Hm Hxy Hxz Hyz a rotation rotated.
  subst a rotation rotated. cbv beta.
  split; [|split; [|split; [|split]]].
  - intros p v s0. apply gd_create_rot_mat_angular_run.
  - intros ->. apply absrot_body_run; [assumption|].
    unfold absrot_axis. now rewrite Z.eqb_refl.
  - intros ->. apply absrot_body_run; [assumption|].
    unfold absrot_axis.
    rewrite (proj2 (Z.eqb_neq GD_Y_AXIS GD_X_AXIS)) by congruence.
    now rewrite Z.eqb_refl.
  - intros ->. apply absrot_body_run; [assumption|].
    unfold absrot_axis.
    rewrite (proj2 (Z.eqb_neq GD_Z_AXIS GD_X_AXIS)) by congruence.
    rewrite (proj2 (Z.eqb_neq GD_Z_AXIS GD_Y_AXIS)) by congruence.
    now rewrite Z.eqb_refl.
  - apply absrot_fatal_run.
Qed.

(** The amended C2 at a concrete input: the x axis, 90 degrees, the
    translation by (0,1,0). *)
Lemma gd_absrot_mat4_multiplies_on_the_right_witness :
  result_at (gd_absrot_mat4 (EX := Examples.quarter_turn) 0
               (GD_X_AXIS (Externals := Examples.quarter_turn)) (Examples.f 90)
               (Examples.store_of Examples.translate_y)) 0
  = Some (mat_mul Examples.translate_y
            (rot_matrix (Examples.vec 1 0 0) (Examples.f 1) (Examples.f 0))).
Proof.
  pose proof (@gd_absrot_mat4_multiplies_on_the_right f32_scalar Examples.quarter_turn
       (Examples.store_of Examples.translate_y) 0%nat
       (GD_X_AXIS (Externals := Examples.quarter_turn)) (Examples.f 90)
       ltac:(cbn; lia) ltac:(discriminate) ltac:(discriminate) ltac:(discriminate)) as H.
  destruct H as (_ & HX & _).
  specialize (HX eq_refl). cbv zeta beta in HX.
  rewrite HX. vm_compute. reflexivity.
Defined.

(** C7, as stated, fails: for the axis (0,0,1), sine 1 and cosine 0 the
    block [gd_create_rot_matrix] writes is not the closed form
    [(1-c) a a^T + c I + s [a]x]: entry [0][1] is 1 where the closed form
    has -1. *)
Lemma gd_create_rot_matrix_is_not_the_closed_form :
  let s := Examples.store_of (Examples.fill (Examples.f 7)) in
  let axis := Examples.vec 0 0 1 in
  result_at (gd_create_rot_matrix 0 axis (Examples.f 1) (Examples.f 0) s) 0
  <> Some (affine_of_block (closed_form axis (Examples.f 1) (Examples.f 0))).
Proof. vm_compute. discriminate. Qed.

(** C7, amended.  In exact arithmetic, for every axis vector and every
    pair (s, c), [gd_create_rot_matrix] writes the matrix whose 3x3
    block, indexed [row][column], is the transpose of the closed form
    [R = (1-c) a a^T + c I + s [a]x] (entry [i][j] is [R j i]), with last
    row and last column (0,0,0,1); and [gd_create_rot_mat_angular] passes
    [deg * 2] through [degrees_to_angle], looks up sine and cosine of the
    result and forwards them to that builder. *)
Theorem gd_create_rot_matrix_is_transposed_closed_form :
  (forall (s : State R) (mtx : ptr) (vec : GdVec3f R) (sn cs : R),
     gd_create_rot_matrix (SC := R_scalar) mtx vec sn cs s
     = Ok tt (set_mat (SC := R_scalar) s mtx
                (affine_of_block (SC := R_scalar)
                   (fun i j => closed_form (SC := R_scalar) vec sn cs j i))))
  /\ (forall (SC : Scalar) (EX : Externals SC) (s : State F) (mtx : ptr)
             (vec : GdVec3f F) (deg : F),
        gd_create_rot_mat_angular mtx vec deg s
        = gd_create_rot_matrix mtx vec
            (sins (degrees_to_angle (deg * fconst 2)%fl))
            (coss (degrees_to_angle (deg * fconst 2)%fl)) s).
Proof.
  split.
  - intros s mtx vec sn cs.
    unfold gd_create_rot_matrix. cbv zeta. cbn [x y z].
    repeat step. f_equal. f_equal.
    unfold affine_of_block, closed_form. destruct vec as [vx vy vz].
    real_matrix.
  - reflexivity.
Qed.

(* ================================================================== *)
(** * Normalisation *)
(* ================================================================== *)

Lemma Reqb_true_iff (a b : R) : Reqb a b = true <-> a = b.
Proof. unfold Reqb. destruct (Req_dec_T a b); split; intros; congruence. Qed.

Lemma Reqb_false_iff (a b : R) : Reqb a b = false <-> a <> b.
Proof. unfold Reqb. destruct (Req_dec_T a b); split; intros; congruence. Qed.

Lemma Rltb_true_iff (a b : R) : Rltb a b = true <-> (a < b)%R.
Proof. unfold Rltb. destruct (Rlt_dec a b); split; intros; try congruence; lra. Qed.

(** In exact arithmetic a vector scaled by [1 / sqrt m], where [m] is its
    squared magnitude and is not zero, has squared magnitude 1. *)
Lemma scaled_squares_sum_to_one (a b c : R) :
  (a * a + b * b + c * c <> 0)%R ->
  let k := (1 / sqrt (a * a + b * b + c * c))%R in
  (a * k * (a * k) + b * k * (b * k) + c * k * (c * k) = 1)%R.
Proof.
  intros Hm k. subst k. set (m := (a * a + b * b + c * c)%R) in *.
  assert (Hpos : (0 < m)%R) by (subst m; nra).
  assert (Hr : (sqrt m * sqrt m = m)%R) by (apply sqrt_sqrt; lra).
  assert (Hr0 : (sqrt m <> 0)%R) by (apply Rgt_not_eq, sqrt_lt_R0, Hpos).
  replace (a * (1 / sqrt m) * (a * (1 / sqrt m)) + b * (1 / sqrt m) * (b * (1 / sqrt m))
           + c * (1 / sqrt m) * (c * (1 / sqrt m)))%R
    with (m / (sqrt m * sqrt m))%R by (subst m; field; exact Hr0).
  rewrite Hr. field. lra.
Qed.

(** Membership in the sample of binary32 vectors. *)
Lemma sample_ints_spec (a : Z) : (-8 <= a <= 8)%Z -> In a Examples.sample_ints.
Proof.
  intros Ha. unfold Examples.sample_ints. apply in_map_iff.
  exists (Z.to_nat (a + 8)). split; [lia|]. apply in_seq. lia.
Qed.

Lemma sample_all_spec (p : GdVec3f F32.t -> bool) (a b c e : Z) :
  Examples.sample_all p = true ->
  (-8 <= a <= 8)%Z -> (-8 <= b <= 8)%Z -> (-8 <= c <= 8)%Z ->
  In e Examples.sample_exps ->
  (a <> 0 \/ b <> 0 \/ c <> 0)%Z ->
  p (Examples.sample_vec a b c e) = true.
Proof.
  intros Hall Ha Hb Hc He Hnz. unfold Examples.sample_all in Hall.
  rewrite forallb_forall in Hall. specialize (Hall e He).
  rewrite forallb_forall in Hall. specialize (Hall a (sample_ints_spec Ha)).
  rewrite forallb_forall in Hall. specialize (Hall b (sample_ints_spec Hb)).
  rewrite forallb_forall in Hall. specialize (Hall c (sample_ints_spec Hc)).
  apply orb_true_iff in Hall. destruct Hall as [Hz|Hp]; [|exact Hp].
  rewrite !andb_true_iff, !Z.eqb_eq in Hz. lia.
Qed.

(** C6.  [gd_normalize_vec3f] is documented to normalise a vector to
    length 1, and the claim promises magnitude 1 within float tolerance
    whenever the squared magnitude is not zero.  In binary32 the squared
    magnitude of (2^64, 0, 0) overflows to +infinity, which does not
    compare equal to zero; the scale [1 / sqrtf] of it is 0, and the
    routine returns success with the zero vector, of magnitude 0.  The
    rest of the claim holds: for every scalar arithmetic the zero test is
    exact, a squared magnitude that compares equal to zero gives the zero
    vector and failure, and any other gives success and the vector scaled
    by [1 / sqrtf] of the squared magnitude; in exact arithmetic that
    result has magnitude 1; and in binary32 it has magnitude 1 up to
    2^-23 for every vector (a 2^e, b 2^e, c 2^e) with integers a, b, c in
    -8..8, not all zero, and e one of -60, -20, 0, 20, 60. *)
Theorem gd_normalize_vec3f_overflow_breaks_unit_length :
  (let v := mkVec3 (F32.of_pow2 1 64) (Examples.f 0) (Examples.f 0) in
   (sqr (x v) + sqr (y v) + sqr (z v))%fl = S754_infinity false
   /\ ((sqr (x v) + sqr (y v) + sqr (z v)) == fconst 0)%fl = false
   /\ gd_normalize_vec3f v = (true, Examples.vec 0 0 0)
   /\ gd_vec3f_magnitude (snd (gd_normalize_vec3f v)) = Examples.f 0)
  /\ (forall (SC : Scalar) (vec : GdVec3f F),
        let mag := (sqr (x vec) + sqr (y vec) + sqr (z vec))%fl in
        let scale := (fconst 1 / sqrtf mag)%fl in
        ((mag == fconst 0)%fl = true ->
         gd_normalize_vec3f vec = (false, mkVec3 (fconst 0) (fconst 0) (fconst 0)))
        /\ ((mag == fconst 0)%fl = false ->
            gd_normalize_vec3f vec
            = (true, mkVec3 (x vec * scale) (y vec * scale) (z vec * scale))%fl))
  /\ (forall vec : GdVec3f R,
        (x vec * x vec + y vec * y vec + z vec * z vec <> 0)%R ->
        fst (gd_normalize_vec3f (SC := R_scalar) vec) = true
        /\ gd_vec3f_magnitude (SC := R_scalar)
             (snd (gd_normalize_vec3f (SC := R_scalar) vec)) = 1%R)
  /\ (forall a b c e : Z,
        (-8 <= a <= 8)%Z -> (-8 <= b <= 8)%Z -> (-8 <= c <= 8)%Z ->
        In e Examples.sample_exps ->
        (a <> 0 \/ b <> 0 \/ c <> 0)%Z ->
        let v := Examples.sample_vec a b c e in
        fst (gd_normalize_vec3f v) = true
        /\ SFleb (SFabs (gd_vec3f_magnitude (snd (gd_normalize_vec3f v)) - fconst 1)%fl)
                 (F32.of_pow2 1 (-23)) = true).
Proof.
  split; [|split; [|split]].
  - vm_compute. repeat split.
  - intros SC vec mag scale. unfold gd_normalize_vec3f. fold mag.
    split; intros ->; reflexivity.
  - intros [a b c] Hm. cbn [x y z] in Hm.
    unfold gd_normalize_vec3f, gd_vec3f_magnitude, sqr.
    cbn [fadd fmul fdiv feqb fconst sqrtf F R_scalar x y z].
    rewrite (proj2 (Reqb_false_iff _ 0) Hm). cbn [fst snd x y z].
    split; [reflexivity|].
    rewrite (scaled_squares_sum_to_one Hm). apply sqrt_1.
  - assert (Hall : Examples.sample_all Examples.normalizes_to_unit = true)
      by (vm_compute; reflexivity).
    intros a b c e Ha Hb Hc He Hnz v.
    pose proof (sample_all_spec Examples.normalizes_to_unit Hall Ha Hb Hc He Hnz) as Hv.
    unfold Examples.normalizes_to_unit in Hv. apply andb_true_iff in Hv.
    exact Hv.
Qed.

(** C6 at the vector (3,0,4) over the reals. *)
Lemma gd_normalize_vec3f_overflow_breaks_unit_length_witness :
  gd_vec3f_magnitude (SC := R_scalar)
    (snd (gd_normalize_vec3f (SC := R_scalar) (mkVec3 3 0 4)%R)) = 1%R.
Proof.
  refine (proj2 (proj1 (proj2 (proj2 gd_normalize_vec3f_overflow_breaks_unit_length))
                   (mkVec3 3 0 4)%R _)).
  cbn [x y z]. lra.
Defined.

(* ================================================================== *)
(** * Look-at builders *)
(* ================================================================== *)

Section LookatLemmas.
Context {SC : Scalar}.
Local Open Scope gd_scope.

(** The forward column of the matrix [gd_mat4f_lookat] writes is the
    rescaled direction, normalised and negated. *)
Lemma gd_mat4f_lookat_run (mtx : ptr)
    (xFrom yFrom zFrom xTo yTo zTo zColY yColY xColY : F) (s : State F) :
  exists m' : Mat4f F,
    gd_mat4f_lookat mtx xFrom yFrom zFrom xTo yTo zTo zColY yColY xColY s
    = Ok tt (set_mat s mtx m')
    /\ (let d := lookat_direction xFrom yFrom zFrom xTo yTo zTo in
        let k := (- (fconst 1 / sqrtf (sqr (z d) + sqr (y d) + sqr (x d))))%fl in
        mget m' 0 2 = (z d * k)%fl /\ mget m' 1 2 = (y d * k)%fl
        /\ mget m' 2 2 = (x d * k)%fl)
    /\ row3 m' = mkRow4 (mget m' 3 0) (mget m' 3 1) (mget m' 3 2) (fconst 1)
    /\ mget m' 0 3 = fconst 0 /\ mget m' 1 3 = fconst 0 /\ mget m' 2 3 = fconst 0.
Proof.
  unfold gd_mat4f_lookat. cbv zeta. cbn [x y z].
  eexists. split.
  - repeat step. reflexivity.
  - cbn. repeat split.
Qed.

(** [gd_create_origin_lookat] when the test [hMag != 0.0f] fails. *)
Lemma gd_create_origin_lookat_fallback_run (mtx : ptr) (vec : GdVec3f F) (s : State F) :
  let unit := snd (gd_normalize_vec3f (mkVec3 (x vec) (y vec) (z vec))) in
  let hMag := sqrtf (sqr (x unit) + sqr (z unit))%fl in
  (hMag == fconst 0)%fl = true ->
  gd_create_origin_lookat mtx vec s = Ok tt (set_mat s mtx origin_lookat_fallback).
Proof.
  intros unit hMag H. unfold gd_create_origin_lookat. cbv zeta.
  fold unit. fold hMag.
  erewrite bind_Ok by apply gd_set_identity_mat4_run.
  rewrite H. cbn [negb].
  repeat step. reflexivity.
Qed.

End LookatLemmas.

(** C8, as stated, fails: when eye and target coincide the direction is
    zero, the sum of its absolute components is 0 < 10, so the direction
    is renormalised and rescaled, and it stays the zero vector, of
    magnitude 0 and not 10000. *)
Lemma lookat_direction_zero_stays_zero :
  let o := Examples.f 0 in
  let raw := (mkVec3 (o - o) (o - o) (o - o))%fl in
  let sum := (absf (z raw) + absf (y raw) + absf (x raw))%fl in
  ((sum > fconst 10000) || (sum < fconst 10))%fl = true
  /\ gd_vec3f_magnitude (lookat_direction o o o o o o) = Examples.f 0
  /\ (gd_vec3f_magnitude (lookat_direction o o o o o o) == fconst 10000)%fl = false.
Proof. vm_compute. repeat split. Qed.

(** C8, amended.  [gd_mat4f_lookat] takes the raw direction
    [d.x = zTo - zFrom], [d.y = yTo - yFrom], [d.z = xTo - xFrom]; when
    the sum of the absolute values of its components is above 10000 or
    below 10 it replaces [d] by its normalisation times 10000, otherwise
    it keeps [d]; the forward column of the matrix is that direction
    normalised and negated.  In exact arithmetic the test holds exactly
    when the sum is outside [10, 10000], and a rescaled direction has
    magnitude 10000 provided the raw direction is not zero (a zero
    direction is rescaled too and stays zero). *)
Theorem lookat_direction_rescales_outside_interval :
  (forall (SC : Scalar) (xFrom yFrom zFrom xTo yTo zTo : F),
     let raw := (mkVec3 (zTo - zFrom) (yTo - yFrom) (xTo - xFrom))%fl in
     let sum := (absf (z raw) + absf (y raw) + absf (x raw))%fl in
     let unit := snd (gd_normalize_vec3f raw) in
     lookat_direction xFrom yFrom zFrom xTo yTo zTo
     = (if ((sum > fconst 10000) || (sum < fconst 10))%fl
        then (mkVec3 (x unit * fconst 10000) (y unit * fconst 10000)
                     (z unit * fconst 10000))%fl
        else raw)
     /\ forall (s : State F) (mtx : ptr) (zColY yColY xColY : F),
          exists m' : Mat4f F,
            gd_mat4f_lookat mtx xFrom yFrom zFrom xTo yTo zTo zColY yColY xColY s
            = Ok tt (set_mat s mtx m')
            /\ (let d := lookat_direction xFrom yFrom zFrom xTo yTo zTo in
                let k := (- (fconst 1 / sqrtf (sqr (z d) + sqr (y d) + sqr (x d))))%fl in
                mget m' 0 2 = (z d * k)%fl /\ mget m' 1 2 = (y d * k)%fl
                /\ mget m' 2 2 = (x d * k)%fl))
  /\ (forall (xFrom yFrom zFrom xTo yTo zTo : R),
        let raw := (mkVec3 (zTo - zFrom) (yTo - yFrom) (xTo - xFrom))%R in
        let sum := (Rabs (z raw) + Rabs (y raw) + Rabs (x raw))%R in
        let rescaled := Rltb 10000 sum || Rltb sum 10 in
        let d := lookat_direction (SC := R_scalar) xFrom yFrom zFrom xTo yTo zTo in
        (rescaled = true <-> ~ (10 <= sum <= 10000)%R)
        /\ (rescaled = false -> d = raw)
        /\ (rescaled = true ->
            (x raw * x raw + y raw * y raw + z raw * z raw <> 0)%R ->
            gd_vec3f_magnitude (SC := R_scalar) d = 10000%R)).
Proof.
  split.
  - intros SC xFrom yFrom zFrom xTo yTo zTo raw sum unit. split.
    + reflexivity.
    + intros s mtx zColY yColY xColY.
      destruct (gd_mat4f_lookat_run mtx xFrom yFrom zFrom xTo yTo zTo
                  zColY yColY xColY s) as (m' & H1 & H2 & _).
      exists m'. split; assumption.
  - intros xFrom yFrom zFrom xTo yTo zTo raw sum rescaled d.
    subst d rescaled sum raw. cbn [x y z].
    set (a := (zTo - zFrom)%R). set (b := (yTo - yFrom)%R). set (c := (xTo - xFrom)%R).
    split; [|split].
    + rewrite orb_true_iff, !Rltb_true_iff. lra.
    + intros Hr. unfold lookat_direction.
      cbn [fadd fsub fmul fdiv fltb fconst absf F R_scalar x y z].
      fold a b c. now rewrite Hr.
    + intros Hr Hnz. unfold lookat_direction.
      cbn [fadd fsub fmul fdiv fltb fconst absf F R_scalar x y z].
      fold a b c. rewrite Hr.
      unfold gd_normalize_vec3f, gd_vec3f_magnitude, sqr.
      cbn [fadd fmul fdiv feqb fconst sqrtf F R_scalar x y z].
      rewrite (proj2 (Reqb_false_iff _ 0) Hnz). cbn [fst snd x y z].
      pose proof (scaled_squares_sum_to_one Hnz) as Hone. cbv zeta in Hone.
      set (k := (1 / sqrt (a * a + b * b + c * c))%R) in *.
      replace (a * k * 10000 * (a * k * 10000) + b * k * 10000 * (b * k * 10000)
               + c * k * 10000 * (c * k * 10000))%R
        with (10000 * 10000 * (a * k * (a * k) + b * k * (b * k) + c * k * (c * k)))%R
        by ring.
      rewrite Hone, Rmult_1_r. apply sqrt_square. lra.
Qed.

(** The amended C8 for the eye (0,0,0) and the target (0,0,-20000) over
    the reals: the sum 20000 is above 10000. *)
Lemma lookat_direction_rescales_outside_interval_witness :
  gd_vec3f_magnitude (SC := R_scalar)
    (lookat_direction (SC := R_scalar) 0 0 0 0 0 (-20000))%R = 10000%R.
Proof.
  refine (proj2 (proj2 (proj2 lookat_direction_rescales_outside_interval
                          0 0 0 0 0 (-20000))%R) _ _).
  - cbn [x y z]. apply orb_true_iff. left. apply Rltb_true_iff.
    unfold Rabs. repeat destruct Rcase_abs; lra.
  - cbn [x y z]. lra.
Defined.

(** In exact arithmetic the normalisation of a vertical vector has no
    horizontal part. *)
Lemma vertical_unit_has_zero_hMag (yv : R) :
  yv <> 0%R ->
  let unit := snd (gd_normalize_vec3f (SC := R_scalar) (mkVec3 0 yv 0)%R) in
  sqrt (x unit * x unit + z unit * z unit) = 0%R.
Proof.
  intros Hy unit. subst unit. unfold gd_normalize_vec3f, sqr.
  cbn [fadd fmul fdiv feqb fconst sqrtf F R_scalar x y z].
  assert (Hm : (0 * 0 + yv * yv + 0 * 0 <> 0)%R) by nra.
  rewrite (proj2 (Reqb_false_iff _ 0) Hm). cbn [snd x z].
  match goal with |- sqrt ?e = _ => replace e with 0%R by ring end.
  apply sqrt_0.
Qed.

(** In binary32, the normalisation of (+-0, y, +-0) has no horizontal
    part as soon as the squared magnitude compares equal to zero, or the
    scale [1 / sqrtf] of it is zero or a finite number. *)
Lemma vertical_unit_has_zero_hMag_f32 (sx sz : bool) (yv : F32.t) :
  let vec := mkVec3 (S754_zero sx) yv (S754_zero sz) in
  let mag := (sqr (x vec) + sqr (y vec) + sqr (z vec))%fl in
  let unit := snd (gd_normalize_vec3f vec) in
  (mag == fconst 0)%fl = true \/ F32.is_finite (fconst 1 / sqrtf mag)%fl = true ->
  (sqrtf (sqr (x unit) + sqr (z unit)) == fconst 0)%fl = true.
Proof.
  intros vec mag unit H. subst unit mag vec.
  unfold gd_normalize_vec3f. cbn [x y z] in *.
  match goal with |- context [if ?c then _ else _] => destruct c eqn:E end.
  - reflexivity.
  - destruct H as [H|H]; [congruence|].
    cbn [snd x z].
    match type of H with F32.is_finite ?k = true =>
      destruct k as [s0|s0| |s0 m0 e0]; try discriminate;
      destruct sx, sz, s0; reflexivity
    end.
Qed.

(** C9.  Whenever the horizontal magnitude [hMag] of the normalised
    direction compares equal to zero, [gd_create_origin_lookat] writes the
    hardcoded basis (rows (0,0,1,0), (1,0,0,0), (0,1,0,0), (0,0,0,1)) and
    nothing computed from [hMag].  In exact arithmetic that is the case
    for every vertical direction (0, y, 0) with y not zero.  In binary32
    it is the case for every direction (+-0, y, +-0) whose squared
    magnitude compares equal to zero or gives a scale [1 / sqrtf] that is
    zero or a finite number, and (0, 5, 0) is such a direction. *)
Theorem gd_create_origin_lookat_vertical_fallback :
  (forall (SC : Scalar) (s : State F) (mtx : ptr) (vec : GdVec3f F),
     let unit := snd (gd_normalize_vec3f (mkVec3 (x vec) (y vec) (z vec))) in
     let hMag := sqrtf (sqr (x unit) + sqr (z unit))%fl in
     (hMag == fconst 0)%fl = true ->
     gd_create_origin_lookat mtx vec s = Ok tt (set_mat s mtx origin_lookat_fallback))
  /\ (forall (yv : R) (s : State R) (mtx : ptr),
        yv <> 0%R ->
        let vec := (mkVec3 0 yv 0)%R in
        let unit := snd (gd_normalize_vec3f (SC := R_scalar) vec) in
        sqrt (x unit * x unit + z unit * z unit) = 0%R
        /\ gd_create_origin_lookat (SC := R_scalar) mtx vec s
           = Ok tt (set_mat (SC := R_scalar) s mtx
                      (origin_lookat_fallback (SC := R_scalar))))
  /\ (forall (sx sz : bool) (yv : F32.t) (s : State F32.t) (mtx : ptr),
        let vec := mkVec3 (S754_zero sx) yv (S754_zero sz) in
        let mag := (sqr (x vec) + sqr (y vec) + sqr (z vec))%fl in
        (mag == fconst 0)%fl = true \/ F32.is_finite (fconst 1 / sqrtf mag)%fl = true ->
        gd_create_origin_lookat mtx vec s = Ok tt (set_mat s mtx origin_lookat_fallback))
  /\ (forall (s : State F32.t) (mtx : ptr),
        let unit := snd (gd_normalize_vec3f (Examples.vec 0 5 0)) in
        sqrtf (sqr (x unit) + sqr (z unit))%fl = Examples.f 0
        /\ gd_create_origin_lookat mtx (Examples.vec 0 5 0) s
           = Ok tt (set_mat s mtx origin_lookat_fallback)).
Proof.
  split; [|split; [|split]].
  - intros SC s mtx vec. apply gd_create_origin_lookat_fallback_run.
  - intros yv s mtx Hy vec unit. split.
    + apply (vertical_unit_has_zero_hMag Hy).
    + apply (gd_create_origin_lookat_fallback_run (SC := R_scalar)).
      cbn [x y z]. unfold sqr. cbn [fadd fmul feqb fconst sqrtf F R_scalar].
      apply Reqb_true_iff. apply (vertical_unit_has_zero_hMag Hy).
  - intros sx sz yv s mtx vec mag H.
    apply gd_create_origin_lookat_fallback_run.
    apply (vertical_unit_has_zero_hMag_f32 sx sz yv H).
  - intros s mtx unit. split.
    + vm_compute. reflexivity.
    + apply gd_create_origin_lookat_fallback_run. vm_compute. reflexivity.
Qed.

(** C9 at the direction (0,5,0) over the reals. *)
Lemma gd_create_origin_lookat_vertical_fallback_witness :
  gd_create_origin_lookat (SC := R_scalar) 0 (mkVec3 0 5 0)%R Examples.real_store
  = Ok tt (set_mat (SC := R_scalar) Examples.real_store 0
             (origin_lookat_fallback (SC := R_scalar))).
Proof.
  refine (proj2 (proj1 (proj2 gd_create_origin_lookat_vertical_fallback)
                   5%R Examples.real_store 0%nat _)).
  lra.
Defined.

(* ================================================================== *)
(** * The other routines: runs, algebra and geometry *)
(* ================================================================== *)

Local Open Scope gd_scope.

(** Matrices and vectors over the reals, written out entry by entry. *)
Ltac real_unfold_all :=
  cbv beta iota zeta delta
    [fadd fsub fmul fdiv fneg fconst F R_scalar sqr x y z
     mat_mul mat_div dot4 adjugate det4 minor3 skip gd_3x3_det gd_2x2_det
     mget mrow rget rset row0 row1 row2 row3 e0 e1 e2 e3 transpose shift_diagonal
     mat_init kron axis_comp cross_mat identity_mat affine_of_block closed_form
     origin_lookat_fallback
     Nat.even Nat.add Nat.sub Nat.eqb Nat.ltb Nat.leb andb];
  unfold Rdiv.
Ltac real_matrix_all := real_unfold_all; repeat (f_equal; try ring).

Ltac vec_unfold :=
  cbv beta iota zeta delta
    [gd_cross_vec3f gd_dot_vec3f gd_vec3f_magnitude cross vec_add vec_times_block
     translation transform_point block_column set_x set_y set_z
     fadd fsub fmul fdiv fneg fconst F R_scalar sqr x y z
     mget mrow rget row0 row1 row2 row3 e0 e1 e2 e3];
  unfold Rdiv.

Ltac destruct_mat m :=
  let a00 := fresh "a00" in let a01 := fresh "a01" in
  let a02 := fresh "a02" in let a03 := fresh "a03" in
  let a10 := fresh "a10" in let a11 := fresh "a11" in
  let a12 := fresh "a12" in let a13 := fresh "a13" in
  let a20 := fresh "a20" in let a21 := fresh "a21" in
  let a22 := fresh "a22" in let a23 := fresh "a23" in
  let a30 := fresh "a30" in let a31 := fresh "a31" in
  let a32 := fresh "a32" in let a33 := fresh "a33" in
  destruct m as [[a00 a01 a02 a03] [a10 a11 a12 a13]
                 [a20 a21 a22 a23] [a30 a31 a32 a33]].

(** The buffer the goal reads, split into its sixteen entries. *)
Ltac destruct_mem :=
  match goal with |- context [@mem ?T ?s ?p] => destruct_mat (@mem T s p) end.

(** ** Products, copies, determinants and inverses *)

Lemma Ok_value_inj {T A : Type} (a b : A) (s s' : State T) :
  Ok a s = Ok b s' -> a = b.
Proof. intros H. now injection H. Qed.

(** X1.  For caller buffers [mA], [mB] and [dst], aliased in any way
    ([dst] may be [mA], [mB] or both), [gd_mult_mat4f] returns, leaves
    the product mA . mB of the matrices the two sources held before the
    call in [dst], restores the stack, and changes no other caller
    buffer. *)
Theorem gd_mult_mat4f_in_place_and_frame :
  forall (SC : Scalar) (s : State F) (mA mB dst : ptr),
    mA < sp s -> mB < sp s -> dst < sp s ->
    exists s' : State F,
      gd_mult_mat4f mA mB dst s = Ok tt s'
      /\ sp s' = sp s
      /\ mem s' dst = mat_mul (mem s mA) (mem s mB)
      /\ forall q : ptr, q < sp s -> q <> dst -> mem s' q = mem s q.
Proof.
  intros SC s mA mB dst HA HB HD. eexists.
  split; [apply gd_mult_mat4f_run; assumption|].
  split; [reflexivity|]. split.
  - now rewrite mem_set_same.
  - intros q Hq Hne. rewrite !mem_set_other by lia. reflexivity.
Qed.

(** X1 in binary32: the matrix with the entries 0..15 squared in place. *)
Lemma gd_mult_mat4f_in_place_and_frame_witness :
  exists s' : State F32.t,
    gd_mult_mat4f 0 0 0 (Examples.store_of Examples.counting) = Ok tt s'
    /\ mem s' 0 = mat_mul Examples.counting Examples.counting.
Proof.
  destruct (@gd_mult_mat4f_in_place_and_frame f32_scalar
              (Examples.store_of Examples.counting) 0 0 0)
    as (s' & H1 & _ & H3 & _); try (cbn [sp Examples.store_of]; lia).
  exists s'. split; [exact H1|exact H3].
Defined.

(** X2.  [gd_copy_mat4f] leaves the source matrix in the destination
    whether or not the two pointers are equal; a copy of a buffer onto
    itself leaves the store as it was, and so does copying back. *)
Theorem gd_copy_mat4f_any_aliasing :
  forall (SC : Scalar) (s : State F) (src dst : ptr),
    gd_copy_mat4f src dst s = Ok tt (set_mat s dst (mem s src))
    /\ gd_copy_mat4f src src s = Ok tt s
    /\ (gd_copy_mat4f src dst ;; gd_copy_mat4f dst src) s
       = Ok tt (set_mat s dst (mem s src)).
Proof.
  intros SC s src dst. split; [|split].
  - apply gd_copy_mat4f_run.
  - rewrite gd_copy_mat4f_run. now rewrite set_mat_id.
  - erewrite bind_Ok by apply gd_copy_mat4f_run.
    rewrite gd_copy_mat4f_run, mem_set_same.
    destruct (Nat.eq_dec src dst) as [->|Hne].
    + now rewrite set_set_same.
    + f_equal. apply state_ext; [reflexivity|]. intros q. cbn.
      destruct (Nat.eqb_spec q src) as [->|]; [|reflexivity].
      apply Nat.eqb_neq in Hne. now rewrite Hne.
Qed.

Lemma mat_mul_identity_R (m : Mat4f R) :
  mat_mul (SC := R_scalar) m (identity_mat (SC := R_scalar)) = m
  /\ mat_mul (SC := R_scalar) (identity_mat (SC := R_scalar)) m = m.
Proof. destruct_mat m. split; real_matrix_all. Qed.

Lemma mat_mul_assoc_R (a b c : Mat4f R) :
  mat_mul (SC := R_scalar) (mat_mul (SC := R_scalar) a b) c
  = mat_mul (SC := R_scalar) a (mat_mul (SC := R_scalar) b c).
Proof. destruct_mat a. destruct_mat b. destruct_mat c. real_matrix_all. Qed.

Lemma det4_mat_mul_R (a b : Mat4f R) :
  det4 (SC := R_scalar) (mat_mul (SC := R_scalar) a b)
  = (det4 (SC := R_scalar) a * det4 (SC := R_scalar) b)%R.
Proof. destruct_mat a. destruct_mat b. real_unfold_all. ring. Qed.

(** X3.  In exact arithmetic the matrix [gd_set_identity_mat4] writes is
    neutral for [gd_mult_mat4f] on both sides: multiplying [m] by it in
    place, as the right or as the left factor, leaves [m]. *)
Theorem gd_mult_mat4f_identity_is_neutral :
  forall (s : State R) (m t : ptr),
    m < sp s -> t < sp s -> t <> m ->
    result_at ((gd_set_identity_mat4 (SC := R_scalar) t ;;
                gd_mult_mat4f (SC := R_scalar) m t m) s) m = Some (mem s m)
    /\ result_at ((gd_set_identity_mat4 (SC := R_scalar) t ;;
                   gd_mult_mat4f (SC := R_scalar) t m m) s) m = Some (mem s m).
Proof.
  intros s m t Hm Ht Hne.
  assert (Hne' : m <> t) by congruence.
  split.
  - erewrite bind_Ok by apply (gd_set_identity_mat4_run (SC := R_scalar)).
    rewrite (gd_mult_mat4f_run (SC := R_scalar)) by (cbn [sp set_mat]; assumption).
    cbn [result_at]. norm_mem. f_equal. apply mat_mul_identity_R.
  - erewrite bind_Ok by apply (gd_set_identity_mat4_run (SC := R_scalar)).
    rewrite (gd_mult_mat4f_run (SC := R_scalar)) by (cbn [sp set_mat]; assumption).
    cbn [result_at]. norm_mem. f_equal. apply mat_mul_identity_R.
Qed.

(** X3 for the matrix with the entries 0..15 in buffer 0 and the identity
    written to buffer 1. *)
Lemma gd_mult_mat4f_identity_is_neutral_witness :
  result_at ((gd_set_identity_mat4 (SC := R_scalar) 1 ;;
              gd_mult_mat4f (SC := R_scalar) 0 1 0)
               (RealExamples.store_of RealExamples.counting RealExamples.counting)) 0
  = Some RealExamples.counting.
Proof.
  refine (proj1 (@gd_mult_mat4f_identity_is_neutral
                   (RealExamples.store_of RealExamples.counting RealExamples.counting)
                   0 1 _ _ _)); cbn [sp RealExamples.store_of]; lia.
Defined.

Lemma gd_mult_mat4f_twice_left_run {SC : Scalar} (s : State F) (a b c t out : ptr) :
  a < sp s -> b < sp s -> c < sp s -> t < sp s -> out < sp s -> t <> c ->
  result_at ((gd_mult_mat4f a b t ;; gd_mult_mat4f t c out) s) out
  = Some (mat_mul (mat_mul (mem s a) (mem s b)) (mem s c)).
Proof.
  intros Ha Hb Hc Ht Ho Htc. assert (c <> t) by congruence.
  erewrite bind_Ok by (apply gd_mult_mat4f_run; assumption).
  rewrite gd_mult_mat4f_run by (cbn [sp set_mat]; assumption).
  cbn [result_at sp set_mat]. norm_mem. reflexivity.
Qed.

Lemma gd_mult_mat4f_twice_right_run {SC : Scalar} (s : State F) (a b c t out : ptr) :
  a < sp s -> b < sp s -> c < sp s -> t < sp s -> out < sp s -> t <> a ->
  result_at ((gd_mult_mat4f b c t ;; gd_mult_mat4f a t out) s) out
  = Some (mat_mul (mem s a) (mat_mul (mem s b) (mem s c))).
Proof.
  intros Ha Hb Hc Ht Ho Hta. assert (a <> t) by congruence.
  erewrite bind_Ok by (apply gd_mult_mat4f_run; assumption).
  rewrite gd_mult_mat4f_run by (cbn [sp set_mat]; assumption).
  cbn [result_at sp set_mat]. norm_mem. reflexivity.
Qed.

(** X4.  In exact arithmetic [gd_mult_mat4f] is associative: with a
    scratch buffer [t] that is neither [a] nor [c], computing (a . b) . c
    and a . (b . c) by two calls each leaves the same matrix in [out],
    which may be any caller buffer. *)
Theorem gd_mult_mat4f_is_associative :
  forall (s : State R) (a b c t out : ptr),
    a < sp s -> b < sp s -> c < sp s -> t < sp s -> out < sp s ->
    t <> a -> t <> c ->
    result_at ((gd_mult_mat4f (SC := R_scalar) a b t ;;
                gd_mult_mat4f (SC := R_scalar) t c out) s) out
    = result_at ((gd_mult_mat4f (SC := R_scalar) b c t ;;
                  gd_mult_mat4f (SC := R_scalar) a t out) s) out.
Proof.
  intros s a b c t out Ha Hb Hc Ht Ho Hta Htc.
  rewrite (gd_mult_mat4f_twice_left_run (SC := R_scalar)) by assumption.
  rewrite (gd_mult_mat4f_twice_right_run (SC := R_scalar)) by assumption.
  f_equal. apply mat_mul_assoc_R.
Qed.

(** X4 for the buffers 0, 1 and 3, with buffer 2 as scratch and buffer 0
    as destination. *)
Lemma gd_mult_mat4f_is_associative_witness :
  let s := RealExamples.store_of RealExamples.counting (RealExamples.diag 1 2 3 4)%R in
  result_at ((gd_mult_mat4f (SC := R_scalar) 0 1 2 ;;
              gd_mult_mat4f (SC := R_scalar) 2 3 0) s) 0
  = result_at ((gd_mult_mat4f (SC := R_scalar) 1 3 2 ;;
                gd_mult_mat4f (SC := R_scalar) 0 2 0) s) 0.
Proof.
  intros s.
  apply (@gd_mult_mat4f_is_associative s 0 1 3 2 0);
    cbn [sp s RealExamples.store_of]; lia.
Defined.

(** X5.  In exact arithmetic [gd_mat4f_det] is multiplicative: the
    determinant it returns for the product left by [gd_mult_mat4f] (in
    any caller buffer, also one of the factors) is the product of the
    determinants it returns for the two factors. *)
Theorem gd_mat4f_det_is_multiplicative :
  forall (s : State R) (a b out : ptr),
    a < sp s -> b < sp s -> out < sp s ->
    exists da db : R,
      gd_mat4f_det (SC := R_scalar) a s = Ok da s
      /\ gd_mat4f_det (SC := R_scalar) b s = Ok db s
      /\ value_of ((gd_mult_mat4f (SC := R_scalar) a b out ;;
                    gd_mat4f_det (SC := R_scalar) out) s) = Some (da * db)%R.
Proof.
  intros s a b out Ha Hb Ho.
  exists (det4 (SC := R_scalar) (mem s a)), (det4 (SC := R_scalar) (mem s b)).
  split; [apply (gd_mat4f_det_run (SC := R_scalar))|]. split; [apply (gd_mat4f_det_run (SC := R_scalar))|].
  erewrite bind_Ok by (apply (gd_mult_mat4f_run (SC := R_scalar)); assumption).
  rewrite (gd_mat4f_det_run (SC := R_scalar)). cbn [value_of].
  rewrite mem_set_same. f_equal. apply det4_mat_mul_R.
Qed.

(** X5 for the buffers 0 and 1, the product written over buffer 0. *)
Lemma gd_mat4f_det_is_multiplicative_witness :
  let s := RealExamples.store_of RealExamples.counting (RealExamples.diag 1 2 3 4)%R in
  exists da db : R,
    gd_mat4f_det (SC := R_scalar) 0 s = Ok da s
    /\ gd_mat4f_det (SC := R_scalar) 1 s = Ok db s
    /\ value_of ((gd_mult_mat4f (SC := R_scalar) 0 1 0 ;;
                  gd_mat4f_det (SC := R_scalar) 0) s) = Some (da * db)%R.
Proof.
  intros s.
  apply (@gd_mat4f_det_is_multiplicative s 0 1 0);
    cbn [sp s RealExamples.store_of]; lia.
Defined.

Lemma adjugate_mat_mul_R (m : Mat4f R) (d : R) :
  mat_mul (SC := R_scalar) (mat_div (SC := R_scalar) (adjugate (SC := R_scalar) m) d) m
  = mat_init (SC := R_scalar)
      (fun i j => (det4 (SC := R_scalar) m * kron (SC := R_scalar) i j / d)%R).
Proof. destruct_mat m. real_matrix_all. Qed.

Lemma mat_mul_adjugate_both_R (m : Mat4f R) :
  let scaled := mat_init (SC := R_scalar)
                  (fun i j => (det4 (SC := R_scalar) m * kron (SC := R_scalar) i j)%R) in
  mat_mul (SC := R_scalar) m (adjugate (SC := R_scalar) m) = scaled
  /\ mat_mul (SC := R_scalar) (adjugate (SC := R_scalar) m) m = scaled.
Proof. destruct_mat m. split; real_matrix_all. Qed.

(** X6.  In exact arithmetic the matrix [gd_adjunct_mat4f] writes is the
    adjugate of the source with respect to [gd_mat4f_det]: its product
    with the source, on either side, is the determinant returned for the
    source times the identity. *)
Theorem gd_adjunct_mat4f_times_source_is_det_times_identity :
  forall (s : State R) (src dst : ptr),
    exists (adj : Mat4f R) (d : R),
      gd_adjunct_mat4f (SC := R_scalar) src dst s = Ok tt (set_mat (SC := R_scalar) s dst adj)
      /\ gd_mat4f_det (SC := R_scalar) src s = Ok d s
      /\ mat_mul (SC := R_scalar) (mem s src) adj
         = mat_init (SC := R_scalar) (fun i j => (d * kron (SC := R_scalar) i j)%R)
      /\ mat_mul (SC := R_scalar) adj (mem s src)
         = mat_init (SC := R_scalar) (fun i j => (d * kron (SC := R_scalar) i j)%R).
Proof.
  intros s src dst.
  exists (adjugate (SC := R_scalar) (mem s src)), (det4 (SC := R_scalar) (mem s src)).
  split; [apply (gd_adjunct_mat4f_run (SC := R_scalar))|].
  split; [apply (gd_mat4f_det_run (SC := R_scalar))|].
  apply mat_mul_adjugate_both_R.
Qed.

(** X7.  In exact arithmetic, when [gd_mat4f_det] returns 1 or -1 for the
    source, [gd_inverse_mat4f] returns (it is not fatal) and the matrix
    it leaves is a two-sided inverse of the source. *)
Theorem gd_inverse_mat4f_inverts_unit_determinant :
  forall (s : State R) (src dst : ptr) (d : R),
    gd_mat4f_det (SC := R_scalar) src s = Ok d s ->
    d = 1%R \/ d = (-1)%R ->
    exists inv : Mat4f R,
      gd_inverse_mat4f (SC := R_scalar) src dst s = Ok tt (set_mat (SC := R_scalar) s dst inv)
      /\ mat_mul (SC := R_scalar) (mem s src) inv = identity_mat (SC := R_scalar)
      /\ mat_mul (SC := R_scalar) inv (mem s src) = identity_mat (SC := R_scalar).
Proof.
  intros s src dst d Hd Hunit.
  assert (Hd' : @Ok R R (det4 (SC := R_scalar) (mem s src)) s = Ok d s) by exact Hd.
  apply Ok_value_inj in Hd'. clear Hd. rename Hd' into Hd.
  rewrite (gd_inverse_mat4f_run (SC := R_scalar)). cbv zeta.
  rewrite det4_adjugate_R.
  match goal with |- context [@det4 ?sc ?m] =>
    replace (@det4 sc m) with d by (symmetry; exact Hd) end.
  assert (Hc : (d * d * d)%R = d) by (destruct Hunit; subst d; ring).
  rewrite Hc.
  assert (Hok : flt_1em5 (Scalar := R_scalar) (absf (Scalar := R_scalar) d) = false).
  { cbn [flt_1em5 absf R_scalar]. unfold Rltb.
    destruct (Rlt_dec (Rabs d) (1 / 100000)) as [Hlt|]; [|reflexivity].
    exfalso. revert Hlt. unfold Rabs.
    destruct Hunit; subst d; destruct Rcase_abs; lra. }
  rewrite Hok. eexists. split; [reflexivity|].
  assert (Hk : forall k : R, (d * k * / d)%R = k).
  { intros k. destruct Hunit; subst d; field. }
  split.
  - rewrite mat_mul_adjugate_R.
    match goal with |- context [@det4 ?sc ?m] =>
      replace (@det4 sc m) with d by (symmetry; exact Hd) end.
    real_unfold_all.
    rewrite !Hk. reflexivity.
  - rewrite adjugate_mat_mul_R.
    match goal with |- context [@det4 ?sc ?m] =>
      replace (@det4 sc m) with d by (symmetry; exact Hd) end.
    real_unfold_all.
    rewrite !Hk. reflexivity.
Qed.

(** X7 for the diagonal matrix (1, -1, 1, 1), of determinant -1. *)
Lemma gd_inverse_mat4f_inverts_unit_determinant_witness :
  let s := RealExamples.store_of (RealExamples.diag 1 (-1) 1 1)%R RealExamples.counting in
  exists inv : Mat4f R,
    gd_inverse_mat4f (SC := R_scalar) 0 1 s = Ok tt (set_mat (SC := R_scalar) s 1 inv)
    /\ mat_mul (SC := R_scalar) (mem s 0) inv = identity_mat (SC := R_scalar)
    /\ mat_mul (SC := R_scalar) inv (mem s 0) = identity_mat (SC := R_scalar).
Proof.
  intros s.
  apply (@gd_inverse_mat4f_inverts_unit_determinant s 0 1 (-1)%R).
  - rewrite (gd_mat4f_det_run (SC := R_scalar)).
    apply (f_equal (fun v : R => @Ok R R v s)).
    subst s. cbn [mem RealExamples.store_of Nat.eqb].
    unfold RealExamples.diag. real_unfold_all. ring.
  - right. reflexivity.
Defined.

(** ** Vectors and quaternions *)

Lemma gd_cross_vec3f_run {SC : Scalar} (h : vec_store) (a b dst : ptr) :
  gd_cross_vec3f a b dst h dst = cross (h a) (h b)
  /\ forall q : ptr, q <> dst -> gd_cross_vec3f a b dst h q = h q.
Proof.
  unfold gd_cross_vec3f, set_x, set_y, set_z, cross. cbv zeta.
  split.
  - rewrite !Nat.eqb_refl. reflexivity.
  - intros q Hq. apply Nat.eqb_neq in Hq. rewrite !Hq. reflexivity.
Qed.

(** X8.  [gd_cross_vec3f] leaves the cross product of the vectors that
    [a] and [b] pointed to before the call behind [dst], also when
    [dst] is [a], [b] or both, and changes no other vector. *)
Theorem gd_cross_vec3f_any_aliasing :
  forall (SC : Scalar) (h : vec_store) (a b dst : ptr),
    gd_cross_vec3f a b dst h dst = cross (h a) (h b)
    /\ forall q : ptr, q <> dst -> gd_cross_vec3f a b dst h q = h q.
Proof.
  intros SC h a b dst. apply gd_cross_vec3f_run.
Qed.

(** X9.  In exact arithmetic the vector [gd_cross_vec3f] writes has
    [gd_dot_vec3f] zero with both factors, and its dot product with
    itself is (a.a)(b.b) - (a.b)^2 (Lagrange's identity). *)
Theorem gd_cross_vec3f_is_orthogonal_to_its_factors :
  forall (h : vec_store (SC := R_scalar)) (a b dst : ptr),
    let c := gd_cross_vec3f (SC := R_scalar) a b dst h dst in
    gd_dot_vec3f (SC := R_scalar) (h a) c = 0%R
    /\ gd_dot_vec3f (SC := R_scalar) (h b) c = 0%R
    /\ gd_dot_vec3f (SC := R_scalar) c c
       = (gd_dot_vec3f (SC := R_scalar) (h a) (h a) * gd_dot_vec3f (SC := R_scalar) (h b) (h b)
          - gd_dot_vec3f (SC := R_scalar) (h a) (h b) * gd_dot_vec3f (SC := R_scalar) (h a) (h b))%R.
Proof.
  intros h a b dst c. subst c.
  rewrite (proj1 (gd_cross_vec3f_run (SC := R_scalar) h a b dst)).
  destruct (h a) as [ax ay az], (h b) as [bx by_ bz].
  vec_unfold. repeat split; ring.
Qed.

Lemma sum_squares_zero (a b c : R) :
  (a * a + b * b + c * c = 0)%R -> a = 0%R /\ b = 0%R /\ c = 0%R.
Proof. intros H. repeat split; nra. Qed.

(** X10.  In exact arithmetic [gd_normalize_vec3f] reports failure
    exactly for the zero vector, which it leaves zero, and normalising
    its result again changes neither the vector nor the flag.  In
    binary32 the square of a small component underflows: the vector
    (2^-80, 0, 0) is reported as a failure and replaced by zero. *)
Theorem gd_normalize_vec3f_is_idempotent :
  (forall v : GdVec3f R,
     let r := gd_normalize_vec3f (SC := R_scalar) v in
     (fst r = false <-> v = mkVec3 0 0 0)%R
     /\ (fst r = false -> snd r = mkVec3 0 0 0)%R
     /\ gd_normalize_vec3f (SC := R_scalar) (snd r) = r)
  /\ gd_normalize_vec3f (mkVec3 (F32.of_pow2 1 (-80)) (Examples.f 0) (Examples.f 0))
     = (false, Examples.vec 0 0 0).
Proof.
  split; [|vm_compute; reflexivity].
  intros [a b c] r. subst r.
  unfold gd_normalize_vec3f, sqr.
  cbn [fadd fmul fdiv feqb fconst sqrtf F R_scalar x y z].
  destruct (Reqb (a * a + b * b + c * c) 0) eqn:E.
  - apply Reqb_true_iff in E. destruct (sum_squares_zero E) as (-> & -> & ->).
    cbn [fst snd x y z].
    split; [split; reflexivity|]. split; [reflexivity|].
    replace (0 * 0 + 0 * 0 + 0 * 0)%R with 0%R by ring.
    rewrite (proj2 (Reqb_true_iff 0 0) eq_refl). reflexivity.
  - apply Reqb_false_iff in E. cbn [fst snd x y z].
    split; [|split].
    + split; [discriminate|].
      intros H. injection H as -> -> ->. exfalso. apply E. ring.
    + discriminate.
    + pose proof (scaled_squares_sum_to_one E) as Hone. cbv zeta in Hone.
      rewrite Hone.
      assert (H1 : Reqb 1 0 = false) by (apply Reqb_false_iff; lra).
      rewrite H1, sqrt_1.
      assert (Hd : (1 / 1)%R = 1%R) by lra.
      rewrite Hd, !Rmult_1_r. reflexivity.
Qed.

(** X11.  In exact arithmetic [gd_vec3f_magnitude] is not negative, its
    square is [gd_dot_vec3f] of the vector with itself, it is zero only
    for the zero vector, and the absolute value of [gd_dot_vec3f a b] is
    at most the product of the two magnitudes. *)
Theorem gd_dot_vec3f_is_bounded_by_magnitudes :
  forall a b : GdVec3f R,
    (0 <= gd_vec3f_magnitude (SC := R_scalar) a)%R
    /\ (gd_vec3f_magnitude (SC := R_scalar) a * gd_vec3f_magnitude (SC := R_scalar) a
        = gd_dot_vec3f (SC := R_scalar) a a)%R
    /\ (gd_vec3f_magnitude (SC := R_scalar) a = 0%R <-> a = mkVec3 0 0 0)%R
    /\ (Rabs (gd_dot_vec3f (SC := R_scalar) a b)
        <= gd_vec3f_magnitude (SC := R_scalar) a * gd_vec3f_magnitude (SC := R_scalar) b)%R.
Proof.
  intros [ax ay az] [bx by_ bz]. vec_unfold.
  set (ma := (ax * ax + ay * ay + az * az)%R).
  set (mb := (bx * bx + by_ * by_ + bz * bz)%R).
  assert (Ha : (0 <= ma)%R) by (subst ma; nra).
  assert (Hb : (0 <= mb)%R) by (subst mb; nra).
  split; [apply sqrt_pos|]. split; [apply sqrt_sqrt; exact Ha|]. split.
  - split.
    + intros H. apply sqrt_eq_0 in H; [|exact Ha].
      destruct (sum_squares_zero H) as (-> & -> & ->). reflexivity.
    + intros H. injection H as -> -> ->. subst ma.
      replace (0 * 0 + 0 * 0 + 0 * 0)%R with 0%R by ring. apply sqrt_0.
  - rewrite <- sqrt_mult by assumption.
    rewrite <- sqrt_Rsqr_abs. apply sqrt_le_1_alt. unfold Rsqr. subst ma mb.
    assert (L : ((ax * ax + ay * ay + az * az) * (bx * bx + by_ * by_ + bz * bz)
                 - (ax * bx + ay * by_ + az * bz) * (ax * bx + ay * by_ + az * bz)
                 = (ay * bz - az * by_) * (ay * bz - az * by_)
                   + (az * bx - ax * bz) * (az * bx - ax * bz)
                   + (ax * by_ - ay * bx) * (ax * by_ - ay * bx))%R) by ring.
    assert (P : (0 <= (ay * bz - az * by_) * (ay * bz - az * by_)
                      + (az * bx - ax * bz) * (az * bx - ax * bz)
                      + (ax * by_ - ay * bx) * (ax * by_ - ay * bx))%R)
      by (repeat apply Rplus_le_le_0_compat; apply Rle_0_sqr).
    rewrite <- L in P. lra.
Qed.

Section Rot2d.
Context {EX16 : Externals16 R_scalar}.

(** X12.  In exact arithmetic, when the sine and cosine the angle adapter
    returns for the converted angle lie on the unit circle,
    [gd_rot_2d_vec] preserves the squared length x^2 + y^2. *)
Theorem gd_rot_2d_vec_preserves_length :
  forall (deg px py : R),
    let sn : R := sins_s16 (SC := R_scalar) (degrees_to_angle_s16 (SC := R_scalar) deg) in
    let cs : R := coss_s16 (SC := R_scalar) (degrees_to_angle_s16 (SC := R_scalar) deg) in
    (sn * sn + cs * cs = 1)%R ->
    let r := gd_rot_2d_vec (SC := R_scalar) deg px py in
    (fst r * fst r + snd r * snd r = px * px + py * py)%R.
Proof.
  intros deg px py sn cs Ha r. subst r. unfold gd_rot_2d_vec. cbv zeta.
  fold sn. fold cs. cbn [fst snd fadd fsub fmul F R_scalar].
  replace (((px * cs - py * sn) * (px * cs - py * sn)
            + (px * sn + py * cs) * (px * sn + py * cs)))%R
    with ((sn * sn + cs * cs) * (px * px + py * py))%R by ring.
  rewrite Ha. ring.
Qed.

End Rot2d.

(** X12 for the vector (1, 2) and the pair (3/5, 4/5). *)
Lemma gd_rot_2d_vec_preserves_length_witness :
  let r := gd_rot_2d_vec (SC := R_scalar) (EX16 := RealExamples.adapter16)
             30%R 1%R 2%R in
  (fst r * fst r + snd r * snd r = 1 * 1 + 2 * 2)%R.
Proof.
  apply (@gd_rot_2d_vec_preserves_length RealExamples.adapter16 30%R 1%R 2%R).
  cbn [sins_s16 coss_s16 RealExamples.adapter16]. lra.
Defined.

(** X13.  In exact arithmetic, for an index [i] in 1..3, a sign 1 or -1
    and a pair (s, c) on the unit circle, [gd_quat_rotation] preserves
    the squared norm of the quaternion. *)
Theorem gd_quat_rotation_preserves_norm :
  forall (quat : Row4 R) (unused : Z) (c s : R) (i : nat) (sign : Z),
    (1 <= i <= 3)%nat ->
    sign = 1%Z \/ sign = (-1)%Z ->
    (s * s + c * c = 1)%R ->
    let q' := gd_quat_rotation (SC := R_scalar) quat unused c s i sign in
    (e0 q' * e0 q' + e1 q' * e1 q' + e2 q' * e2 q' + e3 q' * e3 q'
     = e0 quat * e0 quat + e1 quat * e1 quat + e2 quat * e2 quat + e3 quat * e3 quat)%R.
Proof.
  intros [q0 q1 q2 q3] unused c s i sign Hi Hsign Hsc q'. subst q'.
  assert (Hi' : i = 1%nat \/ i = 2%nat \/ i = 3%nat) by lia.
  destruct Hi' as [->|[->| ->]]; destruct Hsign as [->| ->];
    cbv beta iota zeta delta
      [gd_quat_rotation rget rset e0 e1 e2 e3 Nat.add Nat.leb
       fadd fsub fmul fconst F R_scalar];
    nsatz.
Qed.

(** X13 for the quaternion (1, 2, 3, 4), the index 2, the sign -1 and the
    pair (3/5, 4/5). *)
Lemma gd_quat_rotation_preserves_norm_witness :
  let q' := gd_quat_rotation (SC := R_scalar) (mkRow4 1 2 3 4)%R 0 (4 / 5)%R (3 / 5)%R 2 (-1) in
  (e0 q' * e0 q' + e1 q' * e1 q' + e2 q' * e2 q' + e3 q' * e3 q'
   = 1 * 1 + 2 * 2 + 3 * 3 + 4 * 4)%R.
Proof.
  apply (@gd_quat_rotation_preserves_norm (mkRow4 1 2 3 4)%R 0%Z (4 / 5)%R (3 / 5)%R 2%nat (-1)%Z).
  - lia.
  - right. reflexivity.
  - lra.
Defined.

(** ** Points, scalings and offsets *)

Section PointRunLemmas.
Context {SC : Scalar}.

Lemma gd_rotate_and_translate_vec3f_run (vec : GdVec3f F) (mtx : ptr) (s : State F) :
  gd_rotate_and_translate_vec3f vec mtx s = Ok (transform_point vec (mem s mtx)) s.
Proof. reflexivity. Qed.

Lemma gd_mat4f_mult_vec3f_run (vec : GdVec3f F) (mtx : ptr) (s : State F) :
  gd_mat4f_mult_vec3f vec mtx s = Ok (vec_times_block vec (mem s mtx)) s.
Proof. reflexivity. Qed.

Lemma gd_scale_mat4f_by_vec3f_run (mtx : ptr) (vec : GdVec3f F) (s : State F) :
  let m := mem s mtx in
  gd_scale_mat4f_by_vec3f mtx vec s =
    Ok tt (set_mat s mtx
      (mkMat4
         (mkRow4 (mget m 0 0 * x vec) (mget m 0 1 * x vec) (mget m 0 2 * x vec) (mget m 0 3))
         (mkRow4 (mget m 1 0 * y vec) (mget m 1 1 * y vec) (mget m 1 2 * y vec) (mget m 1 3))
         (mkRow4 (mget m 2 0 * z vec) (mget m 2 1 * z vec) (mget m 2 2 * z vec) (mget m 2 3))
         (row3 m)))%fl.
Proof.
  intros m. subst m. unfold gd_scale_mat4f_by_vec3f, mul_entry.
  repeat step. reflexivity.
Qed.

Lemma gd_add_vec3f_to_mat4f_offset_run (mtx : ptr) (vec : GdVec3f F) (s : State F) :
  let m := mem s mtx in
  gd_add_vec3f_to_mat4f_offset mtx vec s =
    Ok tt (set_mat s mtx
      (mkMat4 (row0 m) (row1 m) (row2 m)
         (mkRow4 (mget m 3 0 + x vec) (mget m 3 1 + y vec) (mget m 3 2 + z vec)
                 (mget m 3 3))))%fl.
Proof.
  intros m. subst m. unfold gd_add_vec3f_to_mat4f_offset, add_entry. cbv zeta.
  repeat step. reflexivity.
Qed.

Lemma gd_invert_elements_mat4f_run (src dst : ptr) (s : State F) :
  gd_invert_elements_mat4f src dst s =
    Ok tt (set_mat s dst (mat_init (fun i j => (fconst 1 / mget (mem s src) i j)%fl))).
Proof.
  unfold gd_invert_elements_mat4f. unroll.
  destruct (Nat.eq_dec src dst) as [->|Hne].
  - repeat step. reflexivity.
  - repeat step. reflexivity.
Qed.

Lemma gd_create_neg_vec_zero_first_mat_row_run (mtx : ptr) (vx vy vz : F) (s : State F) :
  let m := mem s mtx in
  gd_create_neg_vec_zero_first_mat_row mtx vx vy vz s =
    Ok (mkVec3 (- vx) (- vy) (- vz))%fl
       (set_mat s mtx
          (mkMat4 (mkRow4 (fconst 1) (fconst 0) (fconst 0) (fconst 0))
                  (row1 m) (row2 m) (row3 m))).
Proof.
  intros m. subst m. unfold gd_create_neg_vec_zero_first_mat_row. unroll. cbv zeta.
  repeat step. reflexivity.
Qed.

(** Writing back what a buffer holds leaves the store as it was. *)
Lemma store_unchanged (s : State F) (p : ptr) (m : Mat4f F) :
  m = mem s p -> @Ok F unit tt (set_mat s p m) = Ok tt s.
Proof. intros ->. now rewrite set_mat_id. Qed.

End PointRunLemmas.

Lemma transform_point_mat_mul_R (v : GdVec3f R) (a b : Mat4f R) :
  last_column_homogeneous (SC := R_scalar) a ->
  transform_point (SC := R_scalar) v (mat_mul (SC := R_scalar) a b)
  = transform_point (SC := R_scalar) (transform_point (SC := R_scalar) v a) b
  /\ vec_times_block (SC := R_scalar) v (mat_mul (SC := R_scalar) a b)
     = vec_times_block (SC := R_scalar) (vec_times_block (SC := R_scalar) v a) b.
Proof.
  destruct_mat a. destruct_mat b. destruct v as [vx vy vz].
  unfold last_column_homogeneous. cbn [mget mrow rget row0 row1 row2 row3 e0 e1 e2 e3 fconst R_scalar].
  intros (-> & -> & -> & ->).
  split; vec_unfold; real_unfold_all; f_equal; ring.
Qed.

(** X14.  In exact arithmetic, when the last column of [a] is (0,0,0,1),
    transforming a vector by the product [gd_mult_mat4f] leaves for
    [a] and [b] is transforming it by [a] and then by [b]; this holds
    for [gd_rotate_and_translate_vec3f] and for
    [gd_mat4f_mult_vec3f]. *)
Theorem point_transforms_compose_with_gd_mult_mat4f :
  forall (s : State R) (a b out : ptr) (v : GdVec3f R),
    a < sp s -> b < sp s -> out < sp s ->
    last_column_homogeneous (SC := R_scalar) (mem s a) ->
    value_of ((gd_mult_mat4f (SC := R_scalar) a b out ;;
               gd_rotate_and_translate_vec3f (SC := R_scalar) v out) s)
    = value_of ((v' <- gd_rotate_and_translate_vec3f (SC := R_scalar) v a ;;
                 gd_rotate_and_translate_vec3f (SC := R_scalar) v' b) s)
    /\ value_of ((gd_mult_mat4f (SC := R_scalar) a b out ;;
                  gd_mat4f_mult_vec3f (SC := R_scalar) v out) s)
       = value_of ((v' <- gd_mat4f_mult_vec3f (SC := R_scalar) v a ;;
                    gd_mat4f_mult_vec3f (SC := R_scalar) v' b) s).
Proof.
  intros s a b out v Ha Hb Ho Hcol.
  destruct (transform_point_mat_mul_R v (mem s b) Hcol) as [H1 H2].
  split.
  - erewrite bind_Ok by (apply (gd_mult_mat4f_run (SC := R_scalar)); assumption).
    rewrite (gd_rotate_and_translate_vec3f_run (SC := R_scalar)), mem_set_same.
    erewrite bind_Ok by apply (gd_rotate_and_translate_vec3f_run (SC := R_scalar)).
    rewrite (gd_rotate_and_translate_vec3f_run (SC := R_scalar)).
    cbn [value_of]. f_equal. exact H1.
  - erewrite bind_Ok by (apply (gd_mult_mat4f_run (SC := R_scalar)); assumption).
    rewrite (gd_mat4f_mult_vec3f_run (SC := R_scalar)), mem_set_same.
    erewrite bind_Ok by apply (gd_mat4f_mult_vec3f_run (SC := R_scalar)).
    rewrite (gd_mat4f_mult_vec3f_run (SC := R_scalar)).
    cbn [value_of]. f_equal. exact H2.
Qed.

(** X14 for the scaling (2, 3, 4) followed by the matrix with the entries
    0..15, applied to the point (1, 2, 3). *)
Lemma point_transforms_compose_with_gd_mult_mat4f_witness :
  let s := RealExamples.store_of (RealExamples.diag 2 3 4 1)%R RealExamples.counting in
  let v := (mkVec3 1 2 3)%R in
  value_of ((gd_mult_mat4f (SC := R_scalar) 0 1 2 ;;
             gd_rotate_and_translate_vec3f (SC := R_scalar) v 2) s)
  = value_of ((v' <- gd_rotate_and_translate_vec3f (SC := R_scalar) v 0 ;;
               gd_rotate_and_translate_vec3f (SC := R_scalar) v' 1) s).
Proof.
  intros s v.
  refine (proj1 (@point_transforms_compose_with_gd_mult_mat4f s 0 1 2 v _ _ _ _));
    try (cbn [sp s RealExamples.store_of]; lia).
  repeat split.
Defined.

(** X15.  In exact arithmetic, transforming [v] by a matrix after
    [gd_scale_mat4f_by_vec3f] has scaled it by [k] is transforming the
    component-wise product of [k] and [v] by the matrix as it was; the
    translation row is not scaled. *)
Theorem gd_scale_mat4f_by_vec3f_scales_the_point :
  forall (s : State R) (mtx : ptr) (k v : GdVec3f R),
    let kv := (mkVec3 (x k * x v) (y k * y v) (z k * z v))%R in
    value_of ((gd_scale_mat4f_by_vec3f (SC := R_scalar) mtx k ;;
               gd_rotate_and_translate_vec3f (SC := R_scalar) v mtx) s)
    = value_of (gd_rotate_and_translate_vec3f (SC := R_scalar) kv mtx s)
    /\ value_of ((gd_scale_mat4f_by_vec3f (SC := R_scalar) mtx k ;;
                  gd_mat4f_mult_vec3f (SC := R_scalar) v mtx) s)
       = value_of (gd_mat4f_mult_vec3f (SC := R_scalar) kv mtx s).
Proof.
  intros s mtx k v kv. subst kv.
  split.
  - erewrite bind_Ok by apply (gd_scale_mat4f_by_vec3f_run (SC := R_scalar)).
    rewrite !(gd_rotate_and_translate_vec3f_run (SC := R_scalar)), mem_set_same.
    cbn [value_of]. f_equal.
    destruct (mem s mtx) as [[a00 a01 a02 a03] [a10 a11 a12 a13]
                             [a20 a21 a22 a23] [a30 a31 a32 a33]].
    destruct k as [kx ky kz], v as [vx vy vz].
    vec_unfold. f_equal; ring.
  - erewrite bind_Ok by apply (gd_scale_mat4f_by_vec3f_run (SC := R_scalar)).
    rewrite !(gd_mat4f_mult_vec3f_run (SC := R_scalar)), mem_set_same.
    cbn [value_of]. f_equal.
    destruct (mem s mtx) as [[a00 a01 a02 a03] [a10 a11 a12 a13]
                             [a20 a21 a22 a23] [a30 a31 a32 a33]].
    destruct k as [kx ky kz], v as [vx vy vz].
    vec_unfold. f_equal; ring.
Qed.

(** X16.  In exact arithmetic, after [gd_add_vec3f_to_mat4f_offset] has
    added [t], [gd_rotate_and_translate_vec3f] returns the point it
    returned before plus [t], [gd_mat4f_mult_vec3f] returns what it
    returned before, and adding the negated vector restores the
    store. *)
Theorem gd_add_vec3f_to_mat4f_offset_translates_the_point :
  forall (s : State R) (mtx : ptr) (t v : GdVec3f R),
    (exists p : GdVec3f R,
        gd_rotate_and_translate_vec3f (SC := R_scalar) v mtx s = Ok p s
        /\ value_of ((gd_add_vec3f_to_mat4f_offset (SC := R_scalar) mtx t ;;
                      gd_rotate_and_translate_vec3f (SC := R_scalar) v mtx) s)
           = Some (vec_add (SC := R_scalar) p t))
    /\ value_of ((gd_add_vec3f_to_mat4f_offset (SC := R_scalar) mtx t ;;
                  gd_mat4f_mult_vec3f (SC := R_scalar) v mtx) s)
       = value_of (gd_mat4f_mult_vec3f (SC := R_scalar) v mtx s)
    /\ (gd_add_vec3f_to_mat4f_offset (SC := R_scalar) mtx t ;;
        gd_add_vec3f_to_mat4f_offset (SC := R_scalar) mtx
          (mkVec3 (- x t) (- y t) (- z t))%R) s = Ok tt s.
Proof.
  intros s mtx t v. split; [|split].
  - eexists. split; [apply (gd_rotate_and_translate_vec3f_run (SC := R_scalar))|].
    erewrite bind_Ok by apply (gd_add_vec3f_to_mat4f_offset_run (SC := R_scalar)).
    rewrite (gd_rotate_and_translate_vec3f_run (SC := R_scalar)), mem_set_same.
    cbn [value_of]. f_equal.
    destruct (mem s mtx) as [[a00 a01 a02 a03] [a10 a11 a12 a13]
                             [a20 a21 a22 a23] [a30 a31 a32 a33]].
    destruct t as [tx ty tz], v as [vx vy vz].
    vec_unfold. f_equal; ring.
  - erewrite bind_Ok by apply (gd_add_vec3f_to_mat4f_offset_run (SC := R_scalar)).
    rewrite !(gd_mat4f_mult_vec3f_run (SC := R_scalar)), mem_set_same.
    reflexivity.
  - erewrite bind_Ok by apply (gd_add_vec3f_to_mat4f_offset_run (SC := R_scalar)).
    rewrite (gd_add_vec3f_to_mat4f_offset_run (SC := R_scalar)). cbv zeta.
    rewrite mem_set_same, set_set_same.
    apply (store_unchanged (SC := R_scalar)).
    destruct_mem. destruct t as [tx ty tz].
    cbn [mget mrow rget row0 row1 row2 row3 e0 e1 e2 e3 x y z fadd F R_scalar].
    repeat (f_equal; try ring).
Qed.

(** X17.  In exact arithmetic, on a matrix without a zero entry, two
    runs of [gd_invert_elements_mat4f] in place (source and destination
    the same buffer) restore the store. *)
Theorem gd_invert_elements_mat4f_is_an_involution :
  forall (s : State R) (p : ptr),
    (forall i j : nat, i < 4 -> j < 4 -> mget (mem s p) i j <> 0%R) ->
    (gd_invert_elements_mat4f (SC := R_scalar) p p ;;
     gd_invert_elements_mat4f (SC := R_scalar) p p) s = Ok tt s.
Proof.
  intros s p Hnz.
  erewrite bind_Ok by apply (gd_invert_elements_mat4f_run (SC := R_scalar)).
  rewrite (gd_invert_elements_mat4f_run (SC := R_scalar)).
  rewrite mem_set_same, set_set_same.
  apply (store_unchanged (SC := R_scalar)).
  etransitivity; [|apply (mat_eta (SC := R_scalar))].
  cbv beta iota delta [mat_init mget mrow rget row0 row1 row2 row3 e0 e1 e2 e3
                       fdiv fconst F R_scalar].
  f_equal; f_equal; field;
    first [ apply (Hnz 0 0) | apply (Hnz 0 1) | apply (Hnz 0 2) | apply (Hnz 0 3)
          | apply (Hnz 1 0) | apply (Hnz 1 1) | apply (Hnz 1 2) | apply (Hnz 1 3)
          | apply (Hnz 2 0) | apply (Hnz 2 1) | apply (Hnz 2 2) | apply (Hnz 2 3)
          | apply (Hnz 3 0) | apply (Hnz 3 1) | apply (Hnz 3 2) | apply (Hnz 3 3) ];
    lia.
Qed.

(** X17 for the matrix filled with twos. *)
Lemma gd_invert_elements_mat4f_is_an_involution_witness :
  let s := RealExamples.store_of (RealExamples.fill 2%R) RealExamples.counting in
  (gd_invert_elements_mat4f (SC := R_scalar) 0 0 ;;
   gd_invert_elements_mat4f (SC := R_scalar) 0 0) s = Ok tt s.
Proof.
  intros s. apply (@gd_invert_elements_mat4f_is_an_involution s 0).
  intros i j Hi Hj.
  destruct i as [|[|[|[|i]]]]; try lia; destruct j as [|[|[|[|j]]]]; try lia;
    cbn; lra.
Defined.

(** X18.  [gd_create_neg_vec_zero_first_mat_row] returns the negated
    vector, and a call of [gd_create_quat_rot_mat] on the buffer whose
    first row it has set to (1,0,0,0) always returns and leaves a matrix
    whose last row and last column are (0,0,0,1). *)
Theorem gd_create_quat_rot_mat_after_zeroing_row0_is_homogeneous :
  forall (SC : Scalar) (s : State F) (mtx : ptr) (vx vy vz : F) (quat : Row4 F) (unused : Z),
    value_of (gd_create_neg_vec_zero_first_mat_row mtx vx vy vz s)
    = Some (mkVec3 (- vx) (- vy) (- vz))%fl
    /\ exists m' : Mat4f F,
         (gd_create_neg_vec_zero_first_mat_row mtx vx vy vz ;;
          gd_create_quat_rot_mat quat unused mtx) s = Ok tt (set_mat s mtx m')
         /\ row3 m' = mkRow4 (fconst 0) (fconst 0) (fconst 0) (fconst 1)
         /\ last_column_homogeneous m'.
Proof.
  intros SC s mtx vx vy vz quat unused. split.
  - rewrite gd_create_neg_vec_zero_first_mat_row_run. reflexivity.
  - erewrite bind_Ok by apply gd_create_neg_vec_zero_first_mat_row_run.
    match goal with |- context [gd_create_quat_rot_mat quat unused mtx ?s1] =>
      destruct (gd_create_quat_rot_mat_run quat unused mtx s1)
        as (m' & H1 & H2 & H3 & H4 & H5) end.
    exists m'. rewrite H1, set_set_same. split; [reflexivity|].
    rewrite mem_set_same in H2. cbn [mget mrow rget row0 e1 e2 e3] in H2.
    split; [exact H2|].
    unfold last_column_homogeneous, mget. cbn [mrow rget].
    rewrite H2, H3, H4, H5. cbn [e3]. repeat split.
Qed.

(** X19.  In exact arithmetic, for a unit quaternion and a buffer whose
    row 0 holds zeros in columns 1..3, [gd_create_quat_rot_mat] leaves an
    orthonormal matrix (its product with its transpose is the identity)
    of determinant 1. *)
Theorem gd_create_quat_rot_mat_of_unit_quaternion_is_a_rotation :
  forall (s : State R) (mtx : ptr) (quat : Row4 R) (unused : Z),
    (e0 quat * e0 quat + e1 quat * e1 quat + e2 quat * e2 quat + e3 quat * e3 quat = 1)%R ->
    mget (mem s mtx) 0 1 = 0%R -> mget (mem s mtx) 0 2 = 0%R -> mget (mem s mtx) 0 3 = 0%R ->
    exists m' : Mat4f R,
      gd_create_quat_rot_mat (SC := R_scalar) quat unused mtx s
      = Ok tt (set_mat (SC := R_scalar) s mtx m')
      /\ mat_mul (SC := R_scalar) m' (transpose (SC := R_scalar) m')
         = identity_mat (SC := R_scalar)
      /\ det4 (SC := R_scalar) m' = 1%R.
Proof.
  intros s mtx [q0 q1 q2 q3] unused Hq H1 H2 H3.
  cbn [e0 e1 e2 e3] in Hq.
  unfold mget in H1, H2, H3. cbn [mrow rget] in H1, H2, H3.
  unfold gd_create_quat_rot_mat. unroll. cbv zeta.
  repeat step.
  rewrite (gd_shift_mat_up_run (SC := R_scalar)). norm_mem.
  eexists. split; [reflexivity|].
  real_unfold_all. rewrite ?H1, ?H2, ?H3.
  split.
  - repeat (f_equal; try nsatz).
  - nsatz.
Qed.

(** X19 for the unit quaternion (3/5, 4/5, 0, 0) and a buffer that holds
    the identity. *)
Lemma gd_create_quat_rot_mat_of_unit_quaternion_is_a_rotation_witness :
  exists m' : Mat4f R,
    gd_create_quat_rot_mat (SC := R_scalar) (mkRow4 (3 / 5) (4 / 5) 0 0)%R 0 0
      Examples.real_store
    = Ok tt (set_mat (SC := R_scalar) Examples.real_store 0 m')
    /\ mat_mul (SC := R_scalar) m' (transpose (SC := R_scalar) m')
       = identity_mat (SC := R_scalar)
    /\ det4 (SC := R_scalar) m' = 1%R.
Proof.
  apply (@gd_create_quat_rot_mat_of_unit_quaternion_is_a_rotation
           Examples.real_store 0 (mkRow4 (3 / 5) (4 / 5) 0 0)%R 0%Z).
  - cbn [e0 e1 e2 e3]. lra.
  - reflexivity.
  - reflexivity.
  - reflexivity.
Defined.

(** ** Rotations *)

Section RotationRunLemmas.
Context {SC : Scalar} {EX : Externals SC}.

(** The entries [gd_create_rot_matrix] writes. *)
Lemma rot_matrix_entries (vec : GdVec3f F) (s c : F) :
  rot_matrix vec s c =
    (let omc := fconst 1 - c in
     mkMat4
       (mkRow4 (omc * sqr (x vec) + c)
               (omc * x vec * y vec + z vec * s)
               (omc * x vec * z vec - y vec * s) (fconst 0))
       (mkRow4 (omc * x vec * y vec - z vec * s)
               (omc * sqr (y vec) + c)
               (omc * y vec * z vec + x vec * s) (fconst 0))
       (mkRow4 (omc * x vec * z vec + y vec * s)
               (omc * y vec * z vec - x vec * s)
               (omc * sqr (z vec) + c) (fconst 0))
       (mkRow4 (fconst 0) (fconst 0) (fconst 0) (fconst 1)))%fl.
Proof.
  unfold rot_matrix, gd_create_rot_matrix. cbv zeta. cbn [x y z].
  repeat step. cbn [result_at]. rewrite mem_set_same. reflexivity.
Qed.

(** The whole store [gd_absrot_mat4] leaves: the stack pointer is
    restored, [mtx] holds the product, and the caller's other buffers
    are untouched. *)
Lemma gd_absrot_mat4_run (mtx : ptr) (axisnum : Z) (v : GdVec3f F) (ang : F) (s : State F) :
  mtx < sp s ->
  absrot_axis axisnum = ret v ->
  exists s' : State F,
    gd_absrot_mat4 mtx axisnum ang s = Ok tt s'
    /\ sp s' = sp s
    /\ mem s' mtx
       = mat_mul (mem s mtx)
           (rot_matrix v (sins (degrees_to_angle (ang / fconst 2 * fconst 2)%fl))
                         (coss (degrees_to_angle (ang / fconst 2 * fconst 2)%fl)))
    /\ forall q : ptr, q < sp s -> q <> mtx -> mem s' q = mem s q.
Proof.
  intros Hm Hv. unfold gd_absrot_mat4, with_local.
  rewrite Hv, bind_ret.
  erewrite bind_Ok by apply gd_create_rot_mat_angular_run.
  rewrite gd_mult_mat4f_run by (cbn [sp set_mat]; lia).
  eexists. split; [reflexivity|]. cbn [sp mem set_mat].
  split; [reflexivity|]. split.
  - rewrite Nat.eqb_refl.
    rewrite (proj2 (Nat.eqb_neq mtx (sp s))) by lia.
    rewrite Nat.eqb_refl. reflexivity.
  - intros q Hq Hne.
    rewrite (proj2 (Nat.eqb_neq q mtx)) by lia.
    rewrite (proj2 (Nat.eqb_neq q (S (sp s)))) by lia.
    rewrite (proj2 (Nat.eqb_neq q (sp s))) by lia. reflexivity.
Qed.

Lemma absrot_axis_x : absrot_axis GD_X_AXIS = ret (mkVec3 (fconst 1) (fconst 0) (fconst 0)).
Proof. unfold absrot_axis. now rewrite Z.eqb_refl. Qed.

Lemma absrot_axis_y :
  GD_X_AXIS <> GD_Y_AXIS ->
  absrot_axis GD_Y_AXIS = ret (mkVec3 (fconst 0) (fconst 1) (fconst 0)).
Proof.
  intros H. unfold absrot_axis.
  rewrite (proj2 (Z.eqb_neq GD_Y_AXIS GD_X_AXIS)) by congruence.
  now rewrite Z.eqb_refl.
Qed.

Lemma absrot_axis_z :
  GD_X_AXIS <> GD_Z_AXIS -> GD_Y_AXIS <> GD_Z_AXIS ->
  absrot_axis GD_Z_AXIS = ret (mkVec3 (fconst 0) (fconst 0) (fconst 1)).
Proof.
  intros H1 H2. unfold absrot_axis.
  rewrite (proj2 (Z.eqb_neq GD_Z_AXIS GD_X_AXIS)) by congruence.
  rewrite (proj2 (Z.eqb_neq GD_Z_AXIS GD_Y_AXIS)) by congruence.
  now rewrite Z.eqb_refl.
Qed.

(** One conditional call of [gd_rot_mat_about_vec]. *)
Lemma rot_about_vec_step_run (mtx : ptr) (axisnum : Z) (v : GdVec3f F) (ang : F) (s : State F) :
  mtx < sp s ->
  absrot_axis axisnum = ret v ->
  exists s' : State F,
    (if (ang != fconst 0)%fl then gd_absrot_mat4 mtx axisnum ang else ret tt) s = Ok tt s'
    /\ sp s' = sp s
    /\ mem s' mtx
       = (if (ang != fconst 0)%fl
          then mat_mul (mem s mtx)
                 (rot_matrix v (sins (degrees_to_angle (ang / fconst 2 * fconst 2)%fl))
                               (coss (degrees_to_angle (ang / fconst 2 * fconst 2)%fl)))
          else mem s mtx)
    /\ forall q : ptr, q < sp s -> q <> mtx -> mem s' q = mem s q.
Proof.
  intros Hm Hv. destruct (ang != fconst 0)%fl.
  - apply gd_absrot_mat4_run; assumption.
  - exists s. repeat split.
Qed.

End RotationRunLemmas.

(** X20.  On a caller buffer, [gd_rot_mat_about_vec] never ends in the
    fatal error reporter: it multiplies [mtx] on the right by the
    rotation about the x axis when [vec.x] is not zero, then by the one
    about the y axis when [vec.y] is not zero, then by the one about the
    z axis when [vec.z] is not zero, skips the components that compare
    equal to zero, restores the stack and changes no other caller
    buffer. *)
Theorem gd_rot_mat_about_vec_composes_axis_rotations :
  forall (SC : Scalar) (EX : Externals SC) (s : State F) (mtx : ptr) (vec : GdVec3f F),
    mtx < sp s ->
    GD_X_AXIS <> GD_Y_AXIS -> GD_X_AXIS <> GD_Z_AXIS -> GD_Y_AXIS <> GD_Z_AXIS ->
    let turn (m : Mat4f F) (axis : GdVec3f F) (ang : F) :=
      if (ang != fconst 0)%fl
      then mat_mul m
             (rot_matrix axis (sins (degrees_to_angle (ang / fconst 2 * fconst 2)%fl))
                              (coss (degrees_to_angle (ang / fconst 2 * fconst 2)%fl)))
      else m in
    exists s' : State F,
      gd_rot_mat_about_vec mtx vec s = Ok tt s'
      /\ sp s' = sp s
      /\ mem s' mtx
         = turn (turn (turn (mem s mtx) (mkVec3 (fconst 1) (fconst 0) (fconst 0)) (x vec))
                      (mkVec3 (fconst 0) (fconst 1) (fconst 0)) (y vec))
                (mkVec3 (fconst 0) (fconst 0) (fconst 1)) (z vec)
      /\ forall q : ptr, q < sp s -> q <> mtx -> mem s' q = mem s q.
Proof.
  intros SC EX s mtx vec Hm Hxy Hxz Hyz turn. subst turn. cbv beta.
  unfold gd_rot_mat_about_vec.
  destruct (@rot_about_vec_step_run SC EX mtx _ _ (x vec) s Hm absrot_axis_x)
    as (s1 & R1 & P1 & M1 & F1).
  assert (Hm1 : mtx < sp s1) by (rewrite P1; exact Hm).
  destruct (@rot_about_vec_step_run SC EX mtx _ _ (y vec) s1 Hm1 (absrot_axis_y Hxy))
    as (s2 & R2 & P2 & M2 & F2).
  assert (Hm2 : mtx < sp s2) by (rewrite P2; exact Hm1).
  destruct (@rot_about_vec_step_run SC EX mtx _ _ (z vec) s2 Hm2 (absrot_axis_z Hxz Hyz))
    as (s3 & R3 & P3 & M3 & F3).
  exists s3.
  split.
  - erewrite bind_Ok by exact R1. erewrite bind_Ok by exact R2. exact R3.
  - split; [congruence|]. split.
    + rewrite M3, M2, M1. reflexivity.
    + intros q Hq Hne. rewrite F3, F2, F1; try assumption; congruence.
Qed.

(** X20 in binary32: the vector (90, 0, 0) applied to the translation by
    (0,1,0). *)
Lemma gd_rot_mat_about_vec_composes_axis_rotations_witness :
  exists s' : State F32.t,
    gd_rot_mat_about_vec (EX := Examples.quarter_turn) 0 (Examples.vec 90 0 0)
      (Examples.store_of Examples.translate_y) = Ok tt s'
    /\ sp s' = 3.
Proof.
  destruct (@gd_rot_mat_about_vec_composes_axis_rotations f32_scalar Examples.quarter_turn
              (Examples.store_of Examples.translate_y) 0 (Examples.vec 90 0 0)
              ltac:(cbn [sp Examples.store_of]; lia)
              ltac:(discriminate) ltac:(discriminate) ltac:(discriminate))
    as (s' & H1 & H2 & _).
  exists s'. split; [exact H1|exact H2].
Defined.

(** X21.  [gd_rot_mat_about_row] reads the axis from the first three
    entries of the given row before it writes, and leaves in [mat] the
    product of the old matrix with the rotation matrix
    [gd_create_rot_mat_angular] builds for that axis from [ang / 2]; the
    stack is restored and no other caller buffer changes. *)
Theorem gd_rot_mat_about_row_multiplies_by_the_rotation_about_the_old_row :
  forall (SC : Scalar) (EX : Externals SC) (s : State F) (mat : ptr) (row : nat) (ang : F),
    mat < sp s -> row < 4 ->
    let m := mem s mat in
    let axis := mkVec3 (mget m row 0) (mget m row 1) (mget m row 2) in
    let a := degrees_to_angle (ang / fconst 2 * fconst 2)%fl in
    exists s' : State F,
      gd_rot_mat_about_row mat row ang s = Ok tt s'
      /\ sp s' = sp s
      /\ mem s' mat = mat_mul m (rot_matrix axis (sins a) (coss a))
      /\ forall q : ptr, q < sp s -> q <> mat -> mem s' q = mem s q.
Proof.
  intros SC EX s mat row ang Hm Hrow m axis a. subst m axis a.
  unfold gd_rot_mat_about_row, with_local.
  rewrite !bind_ld. cbn [mem]. cbv zeta.
  erewrite bind_Ok by apply gd_create_rot_mat_angular_run.
  rewrite gd_mult_mat4f_run by (cbn [sp set_mat]; lia).
  eexists. split; [reflexivity|]. cbn [sp mem set_mat].
  split; [reflexivity|]. split.
  - rewrite Nat.eqb_refl.
    rewrite (proj2 (Nat.eqb_neq mat (sp s))) by lia.
    rewrite Nat.eqb_refl. reflexivity.
  - intros q Hq Hne.
    rewrite (proj2 (Nat.eqb_neq q mat)) by lia.
    rewrite (proj2 (Nat.eqb_neq q (S (sp s)))) by lia.
    rewrite (proj2 (Nat.eqb_neq q (sp s))) by lia. reflexivity.
Qed.

(** X21 in binary32: row 1 of the matrix with the entries 0..15. *)
Lemma gd_rot_mat_about_row_multiplies_by_the_rotation_about_the_old_row_witness :
  exists s' : State F32.t,
    gd_rot_mat_about_row (EX := Examples.quarter_turn) 0 1 (Examples.f 90)
      (Examples.store_of Examples.counting) = Ok tt s'
    /\ sp s' = 3.
Proof.
  destruct (@gd_rot_mat_about_row_multiplies_by_the_rotation_about_the_old_row
              f32_scalar Examples.quarter_turn
              (Examples.store_of Examples.counting) 0 1 (Examples.f 90)
              ltac:(cbn [sp Examples.store_of]; lia) ltac:(lia))
    as (s' & H1 & H2 & _).
  exists s'. split; [exact H1|exact H2].
Defined.

(** In exact arithmetic the matrix [gd_create_rot_matrix] writes for a
    unit axis and a pair (s, c) on the unit circle is orthonormal, with
    determinant 1; for a unit axis, two of them multiply to the one for
    the sum of the angles. *)
Lemma rot_matrix_orthonormal_R (v : GdVec3f R) (s c : R) :
  (x v * x v + y v * y v + z v * z v = 1)%R ->
  (s * s + c * c = 1)%R ->
  mat_mul (SC := R_scalar) (rot_matrix (SC := R_scalar) v s c)
          (transpose (SC := R_scalar) (rot_matrix (SC := R_scalar) v s c))
  = identity_mat (SC := R_scalar)
  /\ det4 (SC := R_scalar) (rot_matrix (SC := R_scalar) v s c) = 1%R.
Proof.
  destruct v as [vx vy vz]. cbn [x y z]. intros Hv Hsc.
  rewrite (rot_matrix_entries (SC := R_scalar)). cbn [x y z].
  real_unfold_all. split.
  - repeat (f_equal; try nsatz).
  - nsatz.
Qed.

Lemma rot_matrix_angle_sum_R (v : GdVec3f R) (s1 c1 s2 c2 : R) :
  (x v * x v + y v * y v + z v * z v = 1)%R ->
  mat_mul (SC := R_scalar) (rot_matrix (SC := R_scalar) v s1 c1)
          (rot_matrix (SC := R_scalar) v s2 c2)
  = rot_matrix (SC := R_scalar) v (s1 * c2 + c1 * s2)%R (c1 * c2 - s1 * s2)%R.
Proof.
  destruct v as [vx vy vz]. cbn [x y z]. intros Hv.
  rewrite !(rot_matrix_entries (SC := R_scalar)). cbn [x y z].
  real_unfold_all.
  repeat (f_equal; try nsatz).
Qed.

(** X22.  In exact arithmetic, for a unit axis and a pair (s, c) on the
    unit circle, [gd_create_rot_matrix] writes an orthonormal matrix of
    determinant 1 whose last column is (0,0,0,1). *)
Theorem gd_create_rot_matrix_writes_a_rotation :
  forall (s : State R) (mtx : ptr) (v : GdVec3f R) (sn cs : R),
    (x v * x v + y v * y v + z v * z v = 1)%R ->
    (sn * sn + cs * cs = 1)%R ->
    exists m' : Mat4f R,
      gd_create_rot_matrix (SC := R_scalar) mtx v sn cs s
      = Ok tt (set_mat (SC := R_scalar) s mtx m')
      /\ mat_mul (SC := R_scalar) m' (transpose (SC := R_scalar) m')
         = identity_mat (SC := R_scalar)
      /\ det4 (SC := R_scalar) m' = 1%R
      /\ last_column_homogeneous (SC := R_scalar) m'.
Proof.
  intros s mtx v sn cs Hv Hsc.
  exists (rot_matrix (SC := R_scalar) v sn cs).
  split; [apply (gd_create_rot_matrix_run (SC := R_scalar))|].
  destruct (rot_matrix_orthonormal_R v Hv Hsc) as [Ho Hd].
  split; [exact Ho|]. split; [exact Hd|].
  rewrite (rot_matrix_entries (SC := R_scalar)). repeat split.
Qed.

(** X22 for the axis (0, 3/5, 4/5) and the pair (5/13, 12/13). *)
Lemma gd_create_rot_matrix_writes_a_rotation_witness :
  exists m' : Mat4f R,
    gd_create_rot_matrix (SC := R_scalar) 0 (mkVec3 0 (3 / 5) (4 / 5))%R
      (5 / 13)%R (12 / 13)%R Examples.real_store
    = Ok tt (set_mat (SC := R_scalar) Examples.real_store 0 m')
    /\ mat_mul (SC := R_scalar) m' (transpose (SC := R_scalar) m')
       = identity_mat (SC := R_scalar)
    /\ det4 (SC := R_scalar) m' = 1%R
    /\ last_column_homogeneous (SC := R_scalar) m'.
Proof.
  apply (@gd_create_rot_matrix_writes_a_rotation Examples.real_store 0
           (mkVec3 0 (3 / 5) (4 / 5))%R (5 / 13)%R (12 / 13)%R).
  - cbn [x y z]. lra.
  - lra.
Defined.

Lemma two_rotations_product_run {SC : Scalar} (s : State F) (a b out : ptr)
    (v w : GdVec3f F) (s1 c1 s2 c2 : F) :
  a < sp s -> b < sp s -> out < sp s -> a <> b ->
  result_at ((gd_create_rot_matrix a v s1 c1 ;;
              gd_create_rot_matrix b w s2 c2 ;;
              gd_mult_mat4f a b out) s) out
  = Some (mat_mul (rot_matrix v s1 c1) (rot_matrix w s2 c2)).
Proof.
  intros Ha Hb Ho Hne.
  erewrite bind_Ok by apply gd_create_rot_matrix_run.
  erewrite bind_Ok by apply gd_create_rot_matrix_run.
  rewrite gd_mult_mat4f_run by (cbn [sp set_mat]; assumption).
  cbn [result_at sp set_mat]. norm_mem. reflexivity.
Qed.

(** X23.  In exact arithmetic, for a unit axis, the product
    [gd_mult_mat4f] leaves for the matrices [gd_create_rot_matrix]
    writes for (s1, c1) and for (s2, c2) is the matrix it writes for
    (s1 c2 + c1 s2, c1 c2 - s1 s2): rotations about one axis compose by
    adding their angles. *)
Theorem gd_create_rot_matrix_angles_add :
  forall (s : State R) (a b out : ptr) (v : GdVec3f R) (s1 c1 s2 c2 : R),
    a < sp s -> b < sp s -> out < sp s -> a <> b ->
    (x v * x v + y v * y v + z v * z v = 1)%R ->
    result_at ((gd_create_rot_matrix (SC := R_scalar) a v s1 c1 ;;
                gd_create_rot_matrix (SC := R_scalar) b v s2 c2 ;;
                gd_mult_mat4f (SC := R_scalar) a b out) s) out
    = result_at (gd_create_rot_matrix (SC := R_scalar) out v
                   (s1 * c2 + c1 * s2)%R (c1 * c2 - s1 * s2)%R s) out.
Proof.
  intros s a b out v s1 c1 s2 c2 Ha Hb Ho Hne Hv.
  rewrite (two_rotations_product_run (SC := R_scalar)) by assumption.
  rewrite (gd_create_rot_matrix_run (SC := R_scalar)). cbn [result_at].
  rewrite mem_set_same. f_equal. apply rot_matrix_angle_sum_R. exact Hv.
Qed.

(** X23 for two quarter turns about the axis (0, 3/5, 4/5): a half turn. *)
Lemma gd_create_rot_matrix_angles_add_witness :
  let s := RealExamples.store_of RealExamples.counting RealExamples.counting in
  let v := (mkVec3 0 (3 / 5) (4 / 5))%R in
  result_at ((gd_create_rot_matrix (SC := R_scalar) 0 v 1%R 0%R ;;
              gd_create_rot_matrix (SC := R_scalar) 1 v 1%R 0%R ;;
              gd_mult_mat4f (SC := R_scalar) 0 1 2) s) 2
  = result_at (gd_create_rot_matrix (SC := R_scalar) 2 v
                 (1 * 0 + 0 * 1)%R (0 * 0 - 1 * 1)%R s) 2.
Proof.
  intros s v.
  apply (@gd_create_rot_matrix_angles_add s 0 1 2 v 1%R 0%R 1%R 0%R);
    try (cbn [sp s RealExamples.store_of]; lia).
  cbn [x y z v]. lra.
Defined.

Lemma absrot_axis_is_a_unit_axis {SC : Scalar} {EX : Externals SC} (axisnum : Z) :
  axisnum = GD_X_AXIS \/ axisnum = GD_Y_AXIS \/ axisnum = GD_Z_AXIS ->
  exists v : GdVec3f F,
    absrot_axis axisnum = ret v
    /\ (v = mkVec3 (fconst 1) (fconst 0) (fconst 0)
        \/ v = mkVec3 (fconst 0) (fconst 1) (fconst 0)
        \/ v = mkVec3 (fconst 0) (fconst 0) (fconst 1)).
Proof.
  intros H. unfold absrot_axis.
  destruct (Z.eqb_spec axisnum GD_X_AXIS); [eexists; split; [reflexivity|auto]|].
  destruct (Z.eqb_spec axisnum GD_Y_AXIS); [eexists; split; [reflexivity|auto]|].
  destruct (Z.eqb_spec axisnum GD_Z_AXIS); [eexists; split; [reflexivity|auto]|].
  exfalso. destruct H as [H|[H|H]]; congruence.
Qed.

(** X24.  In exact arithmetic, for each of the three axis selectors and
    an angle adapter whose sine and cosine for the angle lie on the unit
    circle, [gd_absrot_mat4] returns and [gd_mat4f_det] returns the same
    determinant for [mtx] after the call as before. *)
Theorem gd_absrot_mat4_preserves_the_determinant :
  forall (EX : Externals R_scalar) (s : State R) (mtx : ptr) (axisnum : Z) (ang : R),
    mtx < sp s ->
    axisnum = @GD_X_AXIS R_scalar EX \/ axisnum = @GD_Y_AXIS R_scalar EX
    \/ axisnum = @GD_Z_AXIS R_scalar EX ->
    let a : R := degrees_to_angle (SC := R_scalar) (ang / 2 * 2)%R in
    let sn : R := sins (SC := R_scalar) a in
    let cs : R := coss (SC := R_scalar) a in
    (sn * sn + cs * cs = 1)%R ->
    value_of ((gd_absrot_mat4 (SC := R_scalar) mtx axisnum ang ;;
               gd_mat4f_det (SC := R_scalar) mtx) s)
    = value_of (gd_mat4f_det (SC := R_scalar) mtx s).
Proof.
  intros EX s mtx axisnum ang Hm Hax a sn cs Hsc.
  destruct (absrot_axis_is_a_unit_axis (SC := R_scalar) Hax) as (v & Hv & Hunit).
  destruct (@gd_absrot_mat4_run R_scalar EX mtx axisnum v ang s Hm Hv)
    as (s' & Hrun & _ & Hmem & _).
  erewrite bind_Ok by exact Hrun.
  rewrite !(gd_mat4f_det_run (SC := R_scalar)). cbn [value_of]. f_equal.
  rewrite Hmem, det4_mat_mul_R.
  assert (Hv1 : (x v * x v + y v * y v + z v * z v = 1)%R).
  { destruct Hunit as [->|[->| ->]]; cbn [x y z fconst R_scalar]; ring. }
  match goal with |- context [@det4 ?sc (@rot_matrix ?sc' v ?p ?q)] =>
    replace (@det4 sc (@rot_matrix sc' v p q)) with 1%R
      by (symmetry; exact (proj2 (rot_matrix_orthonormal_R v Hv1 Hsc))) end.
  change (@F R_scalar) with R. ring.
Qed.

(** X24 for the y axis and the matrix with the entries 0..15. *)
Lemma gd_absrot_mat4_preserves_the_determinant_witness :
  let s := RealExamples.store_of RealExamples.counting RealExamples.counting in
  value_of ((gd_absrot_mat4 (SC := R_scalar) (EX := RealExamples.adapter) 0 1%Z 30%R ;;
             gd_mat4f_det (SC := R_scalar) 0) s)
  = value_of (gd_mat4f_det (SC := R_scalar) 0 s).
Proof.
  intros s.
  apply (@gd_absrot_mat4_preserves_the_determinant RealExamples.adapter s 0 1%Z 30%R).
  - cbn [sp s RealExamples.store_of]. lia.
  - right. left. reflexivity.
  - cbn [sins coss RealExamples.adapter]. lra.
Defined.

(** ** Offsets and look-at matrices *)

Section OffsetRunLemmas.
Context {SC : Scalar}.

(** What [gd_rot_mat_offset] leaves in [dst]. *)
Lemma gd_rot_mat_offset_run (dst : ptr) (vx vy vz : F) (copy : Z) (s : State F) :
  dst < sp s ->
  let opp := sqrtf (sqr vx + sqr vy + sqr vz)%fl in
  let mag := sqrtf (sqr (fconst 100) + sqr opp)%fl in
  let rot := rot_matrix (mkVec3 (- vy / opp) (- vx / opp) (- vz / opp))%fl
                        (opp / mag)%fl (fconst 100 / mag)%fl in
  result_at (gd_rot_mat_offset dst vx vy vz copy s) dst
  = Some (if (opp == fconst 0)%fl
          then (if Z.eqb copy 0 then mem s dst else identity_mat)
          else (if Z.eqb copy 0 then mat_mul (mem s dst) rot else rot)).
Proof.
  intros Hd opp mag rot. subst rot mag opp.
  unfold gd_rot_mat_offset, with_local. cbv zeta.
  match goal with |- context [if ?c then _ else _] => destruct c end.
  - destruct (Z.eqb copy 0); cbn [negb].
    + reflexivity.
    + rewrite gd_set_identity_mat4_run. cbn [result_at mem]. now rewrite mem_set_same.
  - erewrite bind_Ok by apply gd_create_rot_matrix_run.
    destruct (Z.eqb copy 0).
    + rewrite gd_mult_mat4f_run by (cbn [sp set_mat]; lia).
      cbn [result_at mem]. rewrite mem_set_same.
      rewrite mem_set_other by (cbn [sp]; lia). rewrite mem_set_same. reflexivity.
    + rewrite gd_copy_mat4f_run. cbn [result_at mem].
      rewrite !mem_set_same. reflexivity.
Qed.

End OffsetRunLemmas.

(** X25.  In exact arithmetic, for every offset (x, y, z) there is an
    orthonormal matrix of determinant 1, the identity when the offset is
    zero, such that [gd_rot_mat_offset] leaves that matrix in [dst] when
    [copy] is not zero, and the product of the old [dst] with it when
    [copy] is zero. *)
Theorem gd_rot_mat_offset_applies_a_rotation :
  forall (s : State R) (dst : ptr) (vx vy vz : R) (copy : Z),
    dst < sp s ->
    exists rot : Mat4f R,
      mat_mul (SC := R_scalar) rot (transpose (SC := R_scalar) rot)
      = identity_mat (SC := R_scalar)
      /\ det4 (SC := R_scalar) rot = 1%R
      /\ result_at (gd_rot_mat_offset (SC := R_scalar) dst vx vy vz copy s) dst
         = Some (if Z.eqb copy 0
                 then mat_mul (SC := R_scalar) (mem s dst) rot
                 else rot)
      /\ ((vx * vx + vy * vy + vz * vz = 0)%R -> rot = identity_mat (SC := R_scalar)).
Proof.
  intros s dst vx vy vz copy Hd.
  pose proof (@gd_rot_mat_offset_run R_scalar dst vx vy vz copy s Hd) as Hrun.
  cbv zeta in Hrun.
  unfold sqr in Hrun. cbn [fadd fmul fdiv fneg feqb fconst sqrtf F R_scalar] in Hrun.
  set (n := (vx * vx + vy * vy + vz * vz)%R) in *.
  assert (Hn : (0 <= n)%R) by (subst n; nra).
  set (opp := sqrt n) in *.
  set (mag := sqrt (100 * 100 + opp * opp)) in *.
  destruct (Reqb opp 0) eqn:E.
  - exists (identity_mat (SC := R_scalar)).
    split; [real_matrix_all|]. split; [real_unfold_all; ring|].
    split; [|reflexivity].
    rewrite Hrun. f_equal. destruct (Z.eqb copy 0); [|reflexivity].
    symmetry. apply mat_mul_identity_R.
  - apply Reqb_false_iff in E.
    assert (Hopp : (opp * opp = n)%R) by (apply sqrt_sqrt; exact Hn).
    assert (Hpos : (0 < 100 * 100 + opp * opp)%R) by nra.
    assert (Hmag : (mag * mag = 100 * 100 + opp * opp)%R) by (apply sqrt_sqrt; lra).
    assert (Hmag0 : mag <> 0%R) by (apply Rgt_not_eq, sqrt_lt_R0, Hpos).
    eexists. split; [|split; [|split; [exact Hrun|]]].
    + apply rot_matrix_orthonormal_R.
      * cbn [x y z]. subst n. field_simplify_eq; [|exact E]. nra.
      * field_simplify_eq; [|exact Hmag0]. nra.
    + apply rot_matrix_orthonormal_R.
      * cbn [x y z]. subst n. field_simplify_eq; [|exact E]. nra.
      * field_simplify_eq; [|exact Hmag0]. nra.
    + intros H0. exfalso. apply E. subst opp. rewrite H0. apply sqrt_0.
Qed.

(** X25 for the offset (3, 0, 4) applied in place to the matrix with the
    entries 0..15. *)
Lemma gd_rot_mat_offset_applies_a_rotation_witness :
  let s := RealExamples.store_of RealExamples.counting RealExamples.counting in
  exists rot : Mat4f R,
    mat_mul (SC := R_scalar) rot (transpose (SC := R_scalar) rot)
    = identity_mat (SC := R_scalar)
    /\ det4 (SC := R_scalar) rot = 1%R
    /\ result_at (gd_rot_mat_offset (SC := R_scalar) 0 3%R 0%R 4%R 0 s) 0
       = Some (mat_mul (SC := R_scalar) RealExamples.counting rot).
Proof.
  intros s.
  destruct (@gd_rot_mat_offset_applies_a_rotation s 0 3%R 0%R 4%R 0%Z)
    as (rot & H1 & H2 & H3 & _).
  - cbn [sp s RealExamples.store_of]. lia.
  - exists rot. split; [exact H1|]. split; [exact H2|exact H3].
Defined.

(** The reciprocal of the square root of a positive number, squared. *)
Lemma inv_sqrt_squared_R (n : R) :
  n <> 0%R -> (0 <= n)%R -> (n * / sqrt n * / sqrt n = 1)%R.
Proof.
  intros Hn Hpos.
  assert (Hlt : (0 < n)%R) by lra.
  pose proof (sqrt_sqrt n Hpos) as Hs.
  assert (Hs0 : sqrt n <> 0%R) by (apply Rgt_not_eq, sqrt_lt_R0, Hlt).
  rewrite <- Hs at 1. field. exact Hs0.
Qed.

(** In exact arithmetic the direction [gd_mat4f_lookat] works with is a
    nonzero multiple of the raw direction, when that is not zero. *)
Lemma lookat_direction_scales_R (xFrom yFrom zFrom xTo yTo zTo : R) :
  let rx := (zTo - zFrom)%R in
  let ry := (yTo - yFrom)%R in
  let rz := (xTo - xFrom)%R in
  (rx * rx + ry * ry + rz * rz <> 0)%R ->
  exists lam : R,
    lam <> 0%R
    /\ lookat_direction (SC := R_scalar) xFrom yFrom zFrom xTo yTo zTo
       = (mkVec3 (rx * lam) (ry * lam) (rz * lam))%R.
Proof.
  intros rx ry rz Hraw. unfold lookat_direction.
  cbn [fadd fsub fmul fdiv fltb fconst absf F R_scalar x y z]. fold rx ry rz.
  match goal with |- context [if ?c then _ else _] => destruct c end.
  - unfold gd_normalize_vec3f, sqr.
    cbn [fadd fmul fdiv feqb fconst sqrtf F R_scalar x y z].
    rewrite (proj2 (Reqb_false_iff _ 0) Hraw). cbn [snd x y z].
    set (m := (rx * rx + ry * ry + rz * rz)%R) in *.
    assert (Hpos : (0 <= m)%R) by (subst m; nra).
    pose proof (inv_sqrt_squared_R Hraw Hpos) as Hk.
    exists (1 / sqrt m * 10000)%R. split.
    + intros H0. assert (Hz : (/ sqrt m = 0)%R) by (unfold Rdiv in H0; lra).
      rewrite Hz in Hk. lra.
    + f_equal; ring.
  - exists 1%R. split; [lra|]. f_equal; ring.
Qed.

(** The argument of the innermost square root of the goal, named [n],
    with the reciprocal of that root named [i]. *)
Ltac name_inner_sqrt n i :=
  match goal with
  | |- context [sqrt ?a] =>
      lazymatch a with
      | context [sqrt _] => fail
      | _ => set (n := a) in *; set (i := (/ sqrt n)%R) in *
      end
  end.

Lemma sum_of_squares_nonneg (a b c : R) : (0 <= a * a + b * b + c * c)%R.
Proof. nra. Qed.

(** The matrix [gd_mat4f_lookat] leaves, in exact arithmetic, for an eye
    that is not the target and an up vector that is not parallel to the
    direction from the eye to the target. *)
Lemma gd_mat4f_lookat_frame_R (s : State R) (mtx : ptr)
    (xFrom yFrom zFrom xTo yTo zTo zColY yColY xColY : R) :
  let raw := (mkVec3 (zTo - zFrom) (yTo - yFrom) (xTo - xFrom))%R in
  let side := (mkVec3 (zColY * y raw - yColY * z raw)
                      (xColY * z raw - zColY * x raw)
                      (yColY * x raw - xColY * y raw))%R in
  gd_dot_vec3f (SC := R_scalar) raw raw <> 0%R ->
  gd_dot_vec3f (SC := R_scalar) side side <> 0%R ->
  exists m' : Mat4f R,
    gd_mat4f_lookat (SC := R_scalar) mtx xFrom yFrom zFrom xTo yTo zTo zColY yColY xColY s
    = Ok tt (set_mat (SC := R_scalar) s mtx m')
    /\ transform_point (SC := R_scalar) (mkVec3 xFrom yFrom zFrom) m' = (mkVec3 0 0 0)%R
    /\ last_column_homogeneous (SC := R_scalar) m'
    /\ (let col := block_column (SC := R_scalar) m' in
        gd_dot_vec3f (SC := R_scalar) (col 0) (col 0) = 1%R
        /\ gd_dot_vec3f (SC := R_scalar) (col 1) (col 1) = 1%R
        /\ gd_dot_vec3f (SC := R_scalar) (col 2) (col 2) = 1%R
        /\ gd_dot_vec3f (SC := R_scalar) (col 0) (col 1) = 0%R
        /\ gd_dot_vec3f (SC := R_scalar) (col 0) (col 2) = 0%R
        /\ gd_dot_vec3f (SC := R_scalar) (col 1) (col 2) = 0%R)
    /\ det4 (SC := R_scalar) m' = 1%R.
Proof.
  intros raw side Hraw Hside. subst side raw.
  unfold gd_dot_vec3f in Hraw, Hside.
  cbn [fadd fsub fmul F R_scalar x y z] in Hraw, Hside.
  destruct (@lookat_direction_scales_R xFrom yFrom zFrom xTo yTo zTo Hraw)
    as (lam & Hlam & Hd).
  cbv zeta in Hd.
  set (rx := (zTo - zFrom)%R) in *. set (ry := (yTo - yFrom)%R) in *.
  set (rz := (xTo - xFrom)%R) in *. clearbody rx ry rz.
  unfold gd_mat4f_lookat.
  match goal with |- context [@lookat_direction ?sc ?a ?b ?c ?d0 ?e ?f] =>
    replace (@lookat_direction sc a b c d0 e f)
      with (mkVec3 (rx * lam) (ry * lam) (rz * lam))%R by (symmetry; exact Hd) end.
  clear Hd. cbv zeta. cbn [x y z].
  eexists. split; [repeat step; reflexivity|].
  unfold last_column_homogeneous. vec_unfold. real_unfold_all. cbn [sqrtf fconst R_scalar]. unfold Rdiv.
  (* the forward column: the direction, normalised and negated *)
  name_inner_sqrt n1 i1.
  assert (Hn1 : n1 <> 0%R).
  { replace n1 with (lam * lam * (rx * rx + ry * ry + rz * rz))%R by (subst n1; ring).
    repeat apply Rmult_integral_contrapositive_currified; assumption. }
  pose proof (inv_sqrt_squared_R Hn1 (sum_of_squares_nonneg _ _ _)) as H1.
  fold i1 in H1. clearbody i1. subst n1.
  assert (Hi1 : i1 <> 0%R) by (intros H0; rewrite H0 in H1; lra).
  set (ux := (rx * lam * - (1 * i1))%R) in *.
  set (uy := (ry * lam * - (1 * i1))%R) in *.
  set (uz := (rz * lam * - (1 * i1))%R) in *.
  assert (Hu : (uz * uz + uy * uy + ux * ux = 1)%R) by (subst ux uy uz; nsatz).
  (* the side column: up x forward, normalised *)
  name_inner_sqrt n2 i2.
  assert (Hn2 : n2 <> 0%R).
  { replace n2 with
      (lam * lam * (i1 * i1)
       * ((zColY * ry - yColY * rz) * (zColY * ry - yColY * rz)
          + (xColY * rz - zColY * rx) * (xColY * rz - zColY * rx)
          + (yColY * rx - xColY * ry) * (yColY * rx - xColY * ry)))%R
      by (subst n2 ux uy uz; ring).
    repeat apply Rmult_integral_contrapositive_currified; assumption. }
  pose proof (inv_sqrt_squared_R Hn2 (sum_of_squares_nonneg _ _ _)) as H2.
  fold i2 in H2. clearbody i2. subst n2. clearbody ux uy uz.
  clear Hn1 H1 Hi1 Hraw Hside Hlam Hn2.
  set (cx := ((zColY * uy - yColY * uz) * (1 * i2))%R) in *.
  set (cy := ((xColY * uz - zColY * ux) * (1 * i2))%R) in *.
  set (cz := ((yColY * ux - xColY * uy) * (1 * i2))%R) in *.
  assert (Hc : (cz * cz + cy * cy + cx * cx = 1)%R) by (subst cx cy cz; nsatz).
  assert (Huc : (ux * cx + uy * cy + uz * cz = 0)%R) by (subst cx cy cz; ring).
  clearbody cx cy cz. clear H2.
  (* the up column: forward x side, normalised *)
  name_inner_sqrt n3 i3.
  assert (Hn3 : n3 = 1%R) by (subst n3; nsatz).
  assert (H3 : i3 = 1%R) by (subst i3; rewrite Hn3, sqrt_1; field).
  clearbody i3. subst i3. clear Hn3. clear n3.
  split; [f_equal; ring|]. split; [repeat split|].
  split.
  - split; [exact Hc|]. split; [nsatz|]. split; [exact Hu|].
    split; [ring|]. split; [nsatz|ring].
  - nsatz.
Qed.

(** X26.  In exact arithmetic, when the eye is not the target and the up
    vector is not parallel to the direction from the eye to the target,
    [gd_mat4f_lookat] returns and leaves a matrix by which
    [gd_rotate_and_translate_vec3f] maps the eye position to the origin,
    whose last column is (0,0,0,1), whose three block columns are unit
    vectors and pairwise orthogonal, and whose determinant is 1.  Without
    these conditions the routine divides by a zero length: in binary32,
    for the eye and the target both at (1,2,3), it leaves a matrix whose
    rotation block and translation row are NaN. *)
Theorem gd_mat4f_lookat_maps_the_eye_to_the_origin :
  (forall (s : State R) (mtx : ptr)
          (xFrom yFrom zFrom xTo yTo zTo zColY yColY xColY : R),
     let raw := (mkVec3 (zTo - zFrom) (yTo - yFrom) (xTo - xFrom))%R in
     let side := (mkVec3 (zColY * y raw - yColY * z raw)
                         (xColY * z raw - zColY * x raw)
                         (yColY * x raw - xColY * y raw))%R in
     gd_dot_vec3f (SC := R_scalar) raw raw <> 0%R ->
     gd_dot_vec3f (SC := R_scalar) side side <> 0%R ->
     value_of ((gd_mat4f_lookat (SC := R_scalar) mtx xFrom yFrom zFrom xTo yTo zTo
                  zColY yColY xColY ;;
                gd_rotate_and_translate_vec3f (SC := R_scalar)
                  (mkVec3 xFrom yFrom zFrom) mtx) s)
     = Some (mkVec3 0 0 0)%R
     /\ exists m' : Mat4f R,
          gd_mat4f_lookat (SC := R_scalar) mtx xFrom yFrom zFrom xTo yTo zTo
            zColY yColY xColY s
          = Ok tt (set_mat (SC := R_scalar) s mtx m')
          /\ last_column_homogeneous (SC := R_scalar) m'
          /\ (let col := block_column (SC := R_scalar) m' in
              gd_dot_vec3f (SC := R_scalar) (col 0) (col 0) = 1%R
              /\ gd_dot_vec3f (SC := R_scalar) (col 1) (col 1) = 1%R
              /\ gd_dot_vec3f (SC := R_scalar) (col 2) (col 2) = 1%R
              /\ gd_dot_vec3f (SC := R_scalar) (col 0) (col 1) = 0%R
              /\ gd_dot_vec3f (SC := R_scalar) (col 0) (col 2) = 0%R
              /\ gd_dot_vec3f (SC := R_scalar) (col 1) (col 2) = 0%R)
          /\ det4 (SC := R_scalar) m' = 1%R)
  /\ (let o := Examples.f 0 in
      let i := Examples.f 1 in
      result_at (gd_mat4f_lookat 0 (Examples.f 1) (Examples.f 2) (Examples.f 3)
                   (Examples.f 1) (Examples.f 2) (Examples.f 3) o i o
                   (Examples.store_of (Examples.fill (Examples.f 7)))) 0
      = Some (mkMat4 (mkRow4 S754_nan S754_nan S754_nan o)
                     (mkRow4 S754_nan S754_nan S754_nan o)
                     (mkRow4 S754_nan S754_nan S754_nan o)
                     (mkRow4 S754_nan S754_nan S754_nan i))).
Proof.
  split; [|vm_compute; reflexivity].
  intros s mtx xFrom yFrom zFrom xTo yTo zTo zColY yColY xColY raw side Hraw Hside.
  destruct (@gd_mat4f_lookat_frame_R s mtx xFrom yFrom zFrom xTo yTo zTo
              zColY yColY xColY Hraw Hside) as (m' & Hrun & Heye & Hrest).
  split.
  - erewrite bind_Ok by exact Hrun.
    rewrite (gd_rotate_and_translate_vec3f_run (SC := R_scalar)), mem_set_same.
    cbn [value_of]. f_equal. exact Heye.
  - exists m'. split; [exact Hrun|exact Hrest].
Qed.

(** X26 for the eye at the origin, the target (0, 0, -100) and the up
    vector (0, 1, 0). *)
Lemma gd_mat4f_lookat_maps_the_eye_to_the_origin_witness :
  value_of ((gd_mat4f_lookat (SC := R_scalar) 0 0%R 0%R 0%R 0%R 0%R (-100)%R
               0%R 1%R 0%R ;;
             gd_rotate_and_translate_vec3f (SC := R_scalar) (mkVec3 0 0 0)%R 0)
              Examples.real_store)
  = Some (mkVec3 0 0 0)%R.
Proof.
  refine (proj1 (proj1 gd_mat4f_lookat_maps_the_eye_to_the_origin
                   Examples.real_store 0%nat 0%R 0%R 0%R 0%R 0%R (-100)%R
                   0%R 1%R 0%R _ _)).
  - unfold gd_dot_vec3f. cbn [fadd fmul F R_scalar x y z]. lra.
  - unfold gd_dot_vec3f. cbn [fadd fmul F R_scalar x y z]. lra.
Defined.

(** In exact arithmetic the vector [gd_normalize_vec3f] leaves is the
    zero vector or a unit vector. *)
Lemma normalized_is_zero_or_unit_R (v : GdVec3f R) :
  let u := snd (gd_normalize_vec3f (SC := R_scalar) v) in
  u = (mkVec3 0 0 0)%R \/ (x u * x u + y u * y u + z u * z u = 1)%R.
Proof.
  destruct v as [a b c]. unfold gd_normalize_vec3f, sqr.
  cbn [fadd fmul fdiv feqb fconst sqrtf F R_scalar x y z].
  destruct (Reqb (a * a + b * b + c * c) 0) eqn:E; cbn [snd x y z].
  - left. reflexivity.
  - right. apply Reqb_false_iff in E. apply (scaled_squares_sum_to_one E).
Qed.

(** X27.  In exact arithmetic, for every direction, also the zero vector
    and vertical ones, [gd_create_origin_lookat] returns and leaves an
    orthonormal matrix of determinant 1 whose last row and last column
    are (0,0,0,1). *)
Theorem gd_create_origin_lookat_writes_a_rotation :
  forall (s : State R) (mtx : ptr) (vec : GdVec3f R),
    exists m' : Mat4f R,
      gd_create_origin_lookat (SC := R_scalar) mtx vec s
      = Ok tt (set_mat (SC := R_scalar) s mtx m')
      /\ mat_mul (SC := R_scalar) m' (transpose (SC := R_scalar) m')
         = identity_mat (SC := R_scalar)
      /\ det4 (SC := R_scalar) m' = 1%R
      /\ row3 m' = (mkRow4 0 0 0 1)%R
      /\ last_column_homogeneous (SC := R_scalar) m'.
Proof.
  intros s mtx [vx vy vz].
  unfold gd_create_origin_lookat. cbv zeta. cbn [x y z].
  erewrite bind_Ok by apply (gd_set_identity_mat4_run (SC := R_scalar)).
  match goal with |- context [@snd ?A ?B (@gd_normalize_vec3f ?sc ?v)] =>
    set (u := @snd A B (@gd_normalize_vec3f sc v)) in *;
    assert (Hu : u = (mkVec3 0 0 0)%R \/ (x u * x u + y u * y u + z u * z u = 1)%R)
      by exact (normalized_is_zero_or_unit_R (mkVec3 vx vy vz));
    clearbody u; destruct u as [ux uy uz] end.
  cbn [x y z] in *. unfold sqr.
  cbn [fadd fmul fdiv fneg feqb fconst sqrtf F R_scalar].
  assert (Hpos : (0 <= ux * ux + uz * uz)%R) by nra.
  pose proof (sqrt_sqrt _ Hpos) as Hh.
  set (h := sqrt (ux * ux + uz * uz)) in *.
  destruct (Reqb h 0) eqn:E; cbn [negb].
  - eexists. split; [repeat step; reflexivity|].
    unfold last_column_homogeneous. real_unfold_all.
    split; [repeat (f_equal; try ring)|]. split; [ring|]. repeat split.
  - apply Reqb_false_iff in E.
    destruct Hu as [Hz|Hn].
    { exfalso. injection Hz as -> -> ->. apply E. subst h.
      replace (0 * 0 + 0 * 0)%R with 0%R by ring. apply sqrt_0. }
    eexists. split; [repeat step; reflexivity|].
    unfold last_column_homogeneous. real_unfold_all.
    assert (Hih : (h * / h = 1)%R) by (field; exact E).
    set (ih := (/ h)%R) in *. clearbody ih. clearbody h.
    split; [repeat (f_equal; try nsatz)|]. split; [nsatz|]. repeat split.
Qed.
